(** * i3lock: the unlock indicator (unlock_indicator.c)

    A shallow embedding of the glyph-sequence builder, the indicator
    renderer, the screen placement, the colour parser and the cached
    background pixmap of [unlock_indicator.c], with the properties the
    specification states about them. *)

From Stdlib Require Import ZArith QArith List Bool Lia Floats Uint63.
From Stdlib.Strings Require Import Byte.
From stdpp Require Import base option list gmap.

Local Open Scope Z_scope.

(** ** C integers and character buffers *)

Module CMem.

Definition INT_MAX : Z := 2147483647.
Definition INT_MIN : Z := -2147483648.

(** Conversion of a wider value to [int]: what gcc and clang do for the
    implementation-defined narrowing in [int slen = strlen(str)]. *)
Definition to_int (z : Z) : Z := (z + 2147483648) mod 4294967296 - 2147483648.

(** [int * int]; signed overflow is undefined, hence [None]. *)
Definition int_mul (a b : Z) : option Z :=
  let p := a * b in
  if (INT_MIN <=? p) && (p <=? INT_MAX) then Some p else None.

(** The terminator of a string. *)
Definition is_nul (b : byte) : bool := Byte.eqb b x00.

(** A character array is the list of its bytes. A pointer into it is the
    array together with an offset; offsets are plain integers, so that
    [dest - 1] can be formed and compared as the loop of [string_repeat]
    does. Reading or writing outside the array is undefined: [None]. *)
Definition load (m : list byte) (i : Z) : option byte :=
  if i <? 0 then None else m !! Z.to_nat i.

Definition store (m : list byte) (i : Z) (b : byte) : option (list byte) :=
  if (0 <=? i) && (i <? Z.of_nat (length m))
  then Some (<[Z.to_nat i := b]> m)
  else None.

(** The string a [char *] denotes: the bytes before the first NUL. A
    literal is the list of its bytes; its terminator is implied at the
    end of the list. *)
Fixpoint cstr (m : list byte) : list byte :=
  match m with
  | [] => []
  | b :: m' => if is_nul b then [] else b :: cstr m'
  end.

Definition strlen (s : list byte) : Z := Z.of_nat (length (cstr s)).

(** [write_bytes m off bs]: [bs] stored at [off], [off + 1], ... *)
Fixpoint write_bytes (m : list byte) (off : Z) (bs : list byte) : option (list byte) :=
  match bs with
  | [] => Some m
  | b :: bs' => m' ← store m off b; write_bytes m' (off + 1) bs'
  end.

(** [strcpy(m + off, src)]: the characters of [src], then the terminator. *)
Definition strcpy (m : list byte) (off : Z) (src : list byte) : option (list byte) :=
  write_bytes m off (cstr src ++ [x00]).

(** [malloc(n)]: a block of [n] bytes of indeterminate content, given by
    [junk]. *)
Definition malloc (junk : nat → byte) (n : nat) : list byte := junk <$> seq 0 n.

End CMem.

Import CMem.

(** ** The glyph-sequence builder *)

(** [while (pa >= dest) *pa-- = *pb--;] with [pa] and [pb] as offsets from
    [dest]. The loop runs [pa + 1] times; [fuel] bounds the iterations,
    and [string_repeat] gives it exactly that many. *)
Fixpoint copy_down (fuel : nat) (m : list byte) (pa pb : Z) : option (list byte) :=
  if pa <? 0 then Some m
  else match fuel with
       | O => None
       | S fuel' =>
           b ← load m pb;
           m' ← store m pa b;
           copy_down fuel' m' (pa - 1) (pb - 1)
       end.

(** [static void string_repeat(char *dest, const char *str, int n)].
    The result is the array [dest] points to after the call. *)
Definition string_repeat (dest : list byte) (str : list byte) (n : Z) : option (list byte) :=
  if n <=? 0 then Some dest
  else
    let n := if n >=? 64 then 64 else n in
    let slen := to_int (strlen str) in
    off ← int_mul (n - 1) slen;
    m ← strcpy dest off str;
    let pa := off - 1 in
    let pb := pa + slen in
    copy_down (Z.to_nat (pa + 1)) m pa pb.

(** The status dot U+2022, as the three UTF-8 bytes of the literal. *)
Definition dot : list byte := [xe2; x80; xa2].

(** The number of copies [string_repeat] makes for a count [n]. *)
Definition clamp (n : Z) : Z := if n <=? 0 then 0 else if n >=? 64 then 64 else n.

(** [k] copies of a string, one after the other. *)
Definition copies (k : Z) (s : list byte) : list byte := mjoin (replicate (Z.to_nat k) s).

(** ** The colour parser *)

(** The value of a hexadecimal digit, as [strtol] reads it in base 16. *)
Definition hex_digit (c : byte) : option Z :=
  let v := Z.of_N (Byte.to_N c) in
  if (48 <=? v) && (v <=? 57) then Some (v - 48)
  else if (97 <=? v) && (v <=? 102) then Some (v - 87)
  else if (65 <=? v) && (v <=? 70) then Some (v - 55)
  else None.

(** [isspace] in the C locale: space and the controls 9 to 13. *)
Definition isspace (c : byte) : bool :=
  let v := Z.of_N (Byte.to_N c) in (v =? 32) || ((9 <=? v) && (v <=? 13)).

(** The digits of the subject sequence, accumulated from the left until the
    first character that is not a digit. *)
Fixpoint strtol_digits (acc : Z) (s : list byte) : Z :=
  match s with
  | [] => acc
  | c :: s' => match hex_digit c with
               | Some d => strtol_digits (16 * acc + d) s'
               | None => acc
               end
  end.

(** An optional [0x] or [0X] before the digits; it counts only when a digit
    follows, otherwise the subject sequence is the [0] alone. *)
Definition strtol_prefix (s : list byte) : list byte :=
  match s with
  | x30 :: p :: d :: s' =>
      if (Byte.eqb p x78 || Byte.eqb p x58) && bool_decide (is_Some (hex_digit d))
      then d :: s' else s
  | _ => s
  end.

(** An optional sign before the digits. *)
Definition strtol_sign (s : list byte) : Z * list byte :=
  match s with
  | x2d :: s' => (-1, s')
  | x2b :: s' => (1, s')
  | _ => (1, s)
  end.

(** The white space [strtol] skips first. *)
Fixpoint skip_space (s : list byte) : list byte :=
  match s with
  | c :: s' => if isspace c then skip_space s' else s
  | [] => []
  end.

(** [strtol(s, NULL, 16)] for the string that [s] denotes. The callers pass
    strings of two characters, for which no range error can arise. *)
Definition strtol16 (s : list byte) : Z :=
  let '(sign, body) := strtol_sign (skip_space (cstr s)) in
  sign * strtol_digits 0 (strtol_prefix body).

(** Conversion to [uint32_t]. *)
Definition to_uint32 (z : Z) : Z := z mod 4294967296.

(** [color[i]] of [char color[7]]; the array is static, so a position the
    string does not reach holds NUL. *)
Definition char_at (color : list byte) (i : nat) : byte := default x00 (color !! i).

(** [strgroups] and [rgb16] of [draw_image] (lines 123 to 128). *)
Definition strgroups (color : list byte) : list (list byte) :=
  [ [char_at color 0; char_at color 1; x00];
    [char_at color 2; char_at color 3; x00];
    [char_at color 4; char_at color 5; x00] ].

Definition rgb16 (color : list byte) : Z * Z * Z :=
  match strgroups color with
  | [r; g; b] => (to_uint32 (strtol16 r), to_uint32 (strtol16 g), to_uint32 (strtol16 b))
  | _ => (0, 0, 0)
  end.

(** A [uint32_t] as a [double], and the quotient [v / 255.0]. *)
Definition double_of_uint32 (v : Z) : float := PrimFloat.of_uint63 (Uint63.of_Z v).

Definition fraction (v : Z) : float := PrimFloat.div (double_of_uint32 v) (double_of_uint32 255).

(** The three arguments of [cairo_set_source_rgb] at line 129. *)
Definition background_rgb (color : list byte) : float * float * float :=
  let '(r, g, b) := rgb16 color in (fraction r, fraction g, fraction b).

(** The exact value of a finite [double], rounded to the nearest integer,
    halves away from zero (C's [round]). *)
Definition round_double (f : float) : option Z :=
  match Prim2SF f with
  | S754_zero _ => Some 0
  | S754_finite s m e =>
      let a := if 0 <=? e
               then Z.pos m * 2 ^ e
               else (2 * Z.pos m + 2 ^ (- e)) / (2 * 2 ^ (- e)) in
      Some (if s then - a else a)
  | _ => None
  end.

(** ** The state the renderer reads and keeps *)

(** Modelled from the spec: [unlock_indicator.h], which declares
    [unlock_state_t] and [auth_state_t], is not among the sources. The
    enumerators are the ones the specification's data model lists, under
    the names [unlock_indicator.c] uses, in the declaration order that the
    comparisons of [draw_image] rely on. *)
Inductive unlock_state_t : Set :=
  | STATE_STARTED
  | STATE_KEY_PRESSED
  | STATE_NOTHING_TO_DELETE.

Inductive auth_state_t : Set :=
  | STATE_AUTH_IDLE
  | STATE_AUTH_VERIFY
  | STATE_AUTH_LOCK
  | STATE_AUTH_WRONG
  | STATE_I3LOCK_LOCK_FAILED.

(** The integer value of an enumerator: its position in the declaration. *)
Definition unlock_value (u : unlock_state_t) : Z :=
  match u with
  | STATE_STARTED => 0
  | STATE_KEY_PRESSED => 1
  | STATE_NOTHING_TO_DELETE => 2
  end.

Definition auth_value (a : auth_state_t) : Z :=
  match a with
  | STATE_AUTH_IDLE => 0
  | STATE_AUTH_VERIFY => 1
  | STATE_AUTH_LOCK => 2
  | STATE_AUTH_WRONG => 3
  | STATE_I3LOCK_LOCK_FAILED => 4
  end.

#[global] Instance unlock_state_eq_dec : EqDecision unlock_state_t.
Proof. solve_decision. Defined.

#[global] Instance auth_state_eq_dec : EqDecision auth_state_t.
Proof. solve_decision. Defined.

(** Modelled from the spec: [randr.h], which declares [Rect], [xr_screens]
    and [xr_resolutions], is not among the sources. A screen is a rectangle
    with [x], [y], [width] and [height]; the topology is the list of the
    screens, and [xr_screens] is its length. *)
Record Rect : Set := mkRect {
  rect_x : Z;
  rect_y : Z;
  rect_width : Z;
  rect_height : Z
}.

Definition xr_screens (xr_resolutions : list Rect) : Z := Z.of_nat (length xr_resolutions).

(** Handles of the windowing system. [XCB_NONE] is 0; a pixmap that exists
    has a positive identifier. Images and visuals are opaque. *)
Definition xcb_pixmap_t : Set := N.
Definition XCB_NONE : xcb_pixmap_t := 0%N.
Definition cairo_surface_t : Set := nat.
Definition xcb_visualtype_t : Set := nat.
Definition xcb_screen_t : Set := nat.

(** The variables defined in [i3lock.c], [xcb.c], [randr.c] and [dpi.c],
    which [unlock_indicator.c] only reads. *)
Record externs : Set := mkExterns {
  input_position : Z;
  last_resolution : Z * Z;
  unlock_indicator : bool;
  img : option cairo_surface_t;
  tile : bool;
  color : list byte;
  show_on_screen : Z;
  xr_resolutions : list Rect;
  screen : xcb_screen_t;
  dpi : Z
}.

(** The variables [unlock_indicator.c] defines. [unlock_state] and
    [auth_state] are assigned by the other files as well; the static ones
    are assigned here only. *)
Record state : Set := mkState {
  ext : externs;
  unlock_state : unlock_state_t;
  auth_state : auth_state_t;
  last_input_position : Z;
  vistype : option xcb_visualtype_t;
  bg_pixmap : xcb_pixmap_t
}.

Definition set_ext (e : externs) (st : state) : state :=
  mkState e (unlock_state st) (auth_state st) (last_input_position st) (vistype st) (bg_pixmap st).

Definition set_unlock_state (u : unlock_state_t) (st : state) : state :=
  mkState (ext st) u (auth_state st) (last_input_position st) (vistype st) (bg_pixmap st).

Definition set_last_input_position (n : Z) (st : state) : state :=
  mkState (ext st) (unlock_state st) (auth_state st) n (vistype st) (bg_pixmap st).

Definition set_vistype (v : option xcb_visualtype_t) (st : state) : state :=
  mkState (ext st) (unlock_state st) (auth_state st) (last_input_position st) v (bg_pixmap st).

Definition set_bg_pixmap (p : xcb_pixmap_t) (st : state) : state :=
  mkState (ext st) (unlock_state st) (auth_state st) (last_input_position st) (vistype st) p.

Definition set_input_position (n : Z) (e : externs) : externs :=
  mkExterns n (last_resolution e) (unlock_indicator e) (img e) (tile e) (color e)
            (show_on_screen e) (xr_resolutions e) (screen e) (dpi e).

(** ** The indicator: text, colour and placement *)

(** A source colour of [cairo_set_source_rgb]; the [float] quotients of
    the source are kept as the fractions they are written as. *)
Definition rgb : Set := Q * Q * Q.

Definition blue_gray : rgb := (84 # 255, 110 # 255, 122 # 255)%Q.
Definition red : rgb := (255 # 255, 83 # 255, 112 # 255)%Q.
Definition white : rgb := (1, 1, 1)%Q.

Inductive diagnostic : Set :=
  | screen_out_of_bounds (index screens : Z)
  | no_screen_index.

Record placement : Set := mkPlacement {
  screen_center_x : Z;
  screen_center_y : Z;
  screen_offset_x : Z;
  screen_offset_y : Z
}.

(** Lines 196 to 218 of [draw_image]. [/] on [int] truncates ([Z.quot]);
    [xr_resolutions[i]] outside the array is undefined ([None]). The
    second component is what [DEBUG] is given, if anything. *)
Definition screen_placement (xr : list Rect) (show_on_screen : Z) (last_resolution : Z * Z)
  : option (placement * option diagnostic) :=
  if 0 <? xr_screens xr then
    let '(selected_screen, diag) :=
      if (0 <=? show_on_screen) && (show_on_screen <? xr_screens xr)
      then (show_on_screen, None)
      else if (0 <=? show_on_screen) && (xr_screens xr <=? show_on_screen)
      then (0, Some (screen_out_of_bounds show_on_screen (xr_screens xr)))
      else (0, Some no_screen_index) in
    r ← xr !! Z.to_nat selected_screen;
    Some (mkPlacement (rect_width r ÷ 2) (rect_height r ÷ 2) (rect_x r) (rect_y r), diag)
  else
    Some (mkPlacement (last_resolution.1 ÷ 2) (last_resolution.2 ÷ 2) 0 0, None).

(** What the renderer hands to Cairo for the overlay: the string given to
    [cairo_show_text], the source colour in force, and the placement. *)
Record indicator : Set := mkIndicator {
  ind_text : list byte;
  ind_rgb : rgb;
  ind_placement : placement
}.

(** The condition of line 149 and 150: the overlay is drawn. *)
Definition overlay_drawn (st : state) : bool :=
  unlock_indicator (ext st) &&
  ((unlock_value STATE_KEY_PRESSED <=? unlock_value (unlock_state st))
   || (auth_value STATE_AUTH_IDLE <? auth_value (auth_state st))).

(** Lines 151 and 152. *)
Definition remember_input (st : state) : state :=
  if 0 <? input_position (ext st)
  then set_last_input_position (input_position (ext st)) st
  else st.

(** Lines 157 to 163: the buffer [text] after [string_repeat]. *)
Definition build_text (junk : nat → byte) (st : state) : option (list byte) :=
  text ← strcpy (malloc junk 256) 0 [];
  if bool_decide (auth_state st = STATE_AUTH_WRONG)
     || bool_decide (auth_state st = STATE_I3LOCK_LOCK_FAILED)
  then string_repeat text dot (last_input_position st)
  else string_repeat text dot (input_position (ext st)).

(** The [switch] of lines 169 to 189: the buffer and the source colour
    after it. *)
Definition select_color (st : state) (text : list byte) : option (list byte * rgb) :=
  match auth_state st with
  | STATE_AUTH_VERIFY => Some (text, blue_gray)
  | STATE_AUTH_LOCK => Some (text, blue_gray)
  | STATE_AUTH_WRONG =>
      if unlock_value (unlock_state st) <? unlock_value STATE_KEY_PRESSED
      then Some (text, red)
      else Some (text, white)
  | STATE_I3LOCK_LOCK_FAILED => Some (text, red)
  | _ =>
      text ← (if bool_decide (unlock_state st = STATE_NOTHING_TO_DELETE)
              then strcpy text 0 []
              else Some text);
      Some (text, white)
  end.

(** Lines 149 to 227 without the Cairo calls: the state after them and the
    overlay, if one is drawn. [None] stands for undefined behaviour. *)
Definition draw_indicator (junk : nat → byte) (st : state) : option (state * option indicator) :=
  if overlay_drawn st then
    let st := remember_input st in
    text ← build_text junk st;
    '(text, source) ← select_color st text;
    '(place, _) ← screen_placement (xr_resolutions (ext st)) (show_on_screen (ext st))
                                   (last_resolution (ext st));
    Some (st, Some (mkIndicator (cstr text) source place))
  else Some (st, None).

(** The number of glyphs in a string of dots. *)
Definition glyphs (text : list byte) : Z := Z.of_nat (length text) / Z.of_nat (length dot).

(** ** The display server, the surfaces and the frame *)

(** What Cairo and the display server compute is not part of the program:
    the pixel values, the rasteriser of text and the compositing operator
    are an interface the renderer is written against. *)
Class Backend : Type := mkBackend {
  pixel : Type;
  argb : Type;
  (** The pixel of a fresh image surface. *)
  transparent : argb;
  (** An opaque source colour as a pixel of a surface with the given visual. *)
  solid : xcb_visualtype_t → float * float * float → pixel;
  (** The source laid over the destination (Cairo's default operator). *)
  over : xcb_visualtype_t → argb → pixel → pixel;
  (** The size and the pixels of a decoded image. *)
  image_size : cairo_surface_t → Z * Z;
  image_pixel : cairo_surface_t → Z → Z → argb;
  (** The text of the overlay on the in-memory surface: [cairo_scale] by
      [dpi / 96.0], the font, the extents and [cairo_show_text] at the
      position lines 221 and 222 compute from the sums of offset and
      centre. *)
  show_text : Z → list byte → rgb → Z → Z → Z → Z → argb;
  (** [get_root_visual_type] of [xcb.c]. *)
  get_root_visual_type : xcb_screen_t → xcb_visualtype_t;
  (** The content of memory that [malloc] returns. *)
  junk : nat → byte
}.

Section Rendering.

Context `{B : Backend}.

Record pixmap : Type := mkPixmap {
  pm_width : Z;
  pm_height : Z;
  pm_data : Z → Z → pixel
}.

(** The display server as far as the lock window is concerned: the
    pixmaps that exist, the next free identifier, and the background
    pixmap and the last cleared area of [win]. *)
Record xserver : Type := mkServer {
  pixmaps : gmap positive pixmap;
  next_xid : positive;
  win_back_pixmap : xcb_pixmap_t;
  win_cleared : option (Z * Z)
}.

Definition set_pixmaps (m : gmap positive pixmap) (X : xserver) : xserver :=
  mkServer m (next_xid X) (win_back_pixmap X) (win_cleared X).

Definition find_pixmap (X : xserver) (p : xcb_pixmap_t) : option pixmap :=
  match p with
  | N0 => None
  | Npos i => pixmaps X !! i
  end.

(** A surface made by [cairo_xcb_surface_create] for a pixmap. *)
Record xcb_surface : Set := mkSurface {
  sf_pixmap : xcb_pixmap_t;
  sf_visual : xcb_visualtype_t;
  sf_width : Z;
  sf_height : Z
}.

Definition in_rect (w h x y : Z) : bool :=
  (0 <=? x) && (x <? w) && (0 <=? y) && (y <? h).

(** Drawing on a surface changes the pixels of its pixmap that lie inside
    the surface, the pixmap and the rectangle being filled; a request for
    a pixmap that does not exist changes nothing. *)
Definition touched (sf : xcb_surface) (w h : Z) (pm : pixmap) (x y : Z) : bool :=
  in_rect w h x y
  && in_rect (sf_width sf) (sf_height sf) x y
  && in_rect (pm_width pm) (pm_height pm) x y.

Definition repaint (sf : xcb_surface) (w h : Z) (f : Z → Z → pixel → pixel) (pm : pixmap) : pixmap :=
  mkPixmap (pm_width pm) (pm_height pm)
           (λ x y, if touched sf w h pm x y then f x y (pm_data pm x y) else pm_data pm x y).

Definition draw (X : xserver) (sf : xcb_surface) (w h : Z) (f : Z → Z → pixel → pixel) : xserver :=
  match sf_pixmap sf with
  | N0 => X
  | Npos i => set_pixmaps (alter (repaint sf w h f) i (pixmaps X)) X
  end.

(** [cairo_set_source_rgb], [cairo_rectangle(0, 0, w, h)], [cairo_fill]. *)
Definition fill_rgb (X : xserver) (sf : xcb_surface) (c : float * float * float) (w h : Z) : xserver :=
  draw X sf w h (λ _ _ _, solid (sf_visual sf) c).

(** [cairo_set_source_surface(img, 0, 0)], [cairo_paint]: the image where
    it has pixels, nothing elsewhere. *)
Definition paint_image (X : xserver) (sf : xcb_surface) (i : cairo_surface_t) : xserver :=
  draw X sf (sf_width sf) (sf_height sf)
       (λ x y p, if in_rect (image_size i).1 (image_size i).2 x y
                 then over (sf_visual sf) (image_pixel i x y) p
                 else p).

(** The repeating pattern of the image, filled over the rectangle. *)
Definition fill_tiled (X : xserver) (sf : xcb_surface) (i : cairo_surface_t) (w h : Z) : xserver :=
  draw X sf w h
       (λ x y p, over (sf_visual sf)
                   (image_pixel i (x mod (image_size i).1) (y mod (image_size i).2)) p).

(** [cairo_set_source_surface(output, 0, 0)], rectangle, fill. *)
Definition fill_surface (X : xserver) (sf : xcb_surface) (output : Z → Z → argb) (w h : Z) : xserver :=
  draw X sf w h (λ x y p, over (sf_visual sf) (output x y) p).

(** The in-memory surface [output] after the overlay. *)
Definition output_surface (d : Z) (o : option indicator) : Z → Z → argb :=
  match o with
  | None => λ _ _, transparent
  | Some i =>
      let p := ind_placement i in
      show_text d (ind_text i) (ind_rgb i)
                (screen_offset_x p + screen_center_x p)
                (screen_offset_y p + screen_center_y p)
  end.

(** [void draw_image(xcb_pixmap_t bg_pixmap, uint32_t *resolution)]. *)
Definition draw_image (st : state) (X : xserver) (bg : xcb_pixmap_t) (resolution : Z * Z)
  : option (state * xserver) :=
  let e := ext st in
  let vis := match vistype st with
             | Some v => v
             | None => get_root_visual_type (screen e)
             end in
  let st := set_vistype (Some vis) st in
  let xcb_output := mkSurface bg vis resolution.1 resolution.2 in
  let X := fill_rgb X xcb_output (background_rgb (color e)) resolution.1 resolution.2 in
  let X := match img e with
           | Some i =>
               if negb (tile e) then paint_image X xcb_output i
               else fill_tiled X xcb_output i resolution.1 resolution.2
           | None => X
           end in
  '(st, overlay) ← draw_indicator junk st;
  let X := fill_surface X xcb_output (output_surface (dpi e) overlay) resolution.1 resolution.2 in
  Some (st, X).

(** Modelled from the spec: [create_bg_pixmap] of [xcb.c] is not among the
    sources. It allocates a new backing pixmap at the given resolution and
    colour and returns its handle. *)
Definition create_bg_pixmap (X : xserver) (scr : xcb_screen_t) (resolution : Z * Z) (color : list byte)
  : xserver * xcb_pixmap_t :=
  let id := next_xid X in
  let fill := solid (get_root_visual_type scr) (background_rgb color) in
  (mkServer (<[id := mkPixmap resolution.1 resolution.2 (λ _ _, fill)]> (pixmaps X))
            (Pos.succ id) (win_back_pixmap X) (win_cleared X),
   Npos id).

(** [xcb_free_pixmap]: the pixmap is gone; for a handle that names no
    pixmap the server answers with an error that nobody reads. *)
Definition xcb_free_pixmap (X : xserver) (p : xcb_pixmap_t) : xserver :=
  match p with
  | N0 => X
  | Npos i => set_pixmaps (delete i (pixmaps X)) X
  end.

(** [xcb_change_window_attributes(conn, win, XCB_CW_BACK_PIXMAP, ...)]. *)
Definition xcb_change_back_pixmap (X : xserver) (p : xcb_pixmap_t) : xserver :=
  mkServer (pixmaps X) (next_xid X) p (win_cleared X).

(** [xcb_clear_area(conn, 0, win, 0, 0, w, h)]. *)
Definition xcb_clear_area (X : xserver) (w h : Z) : xserver :=
  mkServer (pixmaps X) (next_xid X) (win_back_pixmap X) (Some (w, h)).

(** [void free_bg_pixmap(void)]. *)
Definition free_bg_pixmap (st : state) (X : xserver) : state * xserver :=
  (set_bg_pixmap XCB_NONE st, xcb_free_pixmap X (bg_pixmap st)).

(** [void redraw_screen(void)]. *)
Definition redraw_screen (st : state) (X : xserver) : option (state * xserver) :=
  let e := ext st in
  let '(st, X) :=
    if bool_decide (bg_pixmap st = XCB_NONE)
    then let '(X, p) := create_bg_pixmap X (screen e) (last_resolution e) (color e) in
         (set_bg_pixmap p st, X)
    else (st, X) in
  '(st, X) ← draw_image st X (bg_pixmap st) (last_resolution e);
  let X := xcb_change_back_pixmap X (bg_pixmap st) in
  let X := xcb_clear_area X (last_resolution e).1 (last_resolution e).2 in
  Some (st, X).

(** [void clear_indicator(void)]. *)
Definition clear_indicator (st : state) (X : xserver) : option (state * xserver) :=
  let st := if input_position (ext st) =? 0
            then set_unlock_state STATE_STARTED st
            else set_unlock_state STATE_KEY_PRESSED st in
  redraw_screen st X.

End Rendering.

(** ** Observations the properties are stated on *)

(** The variables as the program starts: the static initialisers of
    [unlock_indicator.c], and for the collaborators a white background on
    one 1920 by 1080 root window without topology. *)
Definition startup_externs : externs :=
  mkExterns 0 (1920, 1080) true None false [x66; x66; x66; x66; x66; x66] (-1) [] 0%nat 96.

Definition startup_state : state :=
  mkState startup_externs STATE_STARTED STATE_AUTH_IDLE 0 None XCB_NONE.

(** The indicator switched off on the command line. *)
Definition without_indicator (e : externs) : externs :=
  mkExterns (input_position e) (last_resolution e) false (img e) (tile e) (color e)
            (show_on_screen e) (xr_resolutions e) (screen e) (dpi e).

(** The centre and the offset of a screen rectangle. *)
Definition place_on (r : Rect) : placement :=
  mkPlacement (rect_width r ÷ 2) (rect_height r ÷ 2) (rect_x r) (rect_y r).

(** The text an overlay shows; nothing when no overlay is drawn. *)
Definition drawn_text (o : option indicator) : list byte :=
  match o with
  | Some i => ind_text i
  | None => []
  end.

(** Successive renders, the collaborators having set [input_position] to
    the next value of [inputs] before each: the values of
    [last_input_position] after each render. *)
Fixpoint last_lengths (f : nat → byte) (st : state) (inputs : list Z) : option (list Z) :=
  match inputs with
  | [] => Some []
  | n :: inputs' =>
      '(st', _) ← draw_indicator f (set_ext (set_input_position n (ext st)) st);
      rest ← last_lengths f st' inputs';
      Some (last_input_position st' :: rest)
  end.

(** The integer a group of two hexadecimal digits of the colour string
    stands for. *)
Definition group_value (color : list byte) (k : nat) : option Z :=
  hi ← color !! (2 * k)%nat ≫= hex_digit;
  lo ← color !! (2 * k + 1)%nat ≫= hex_digit;
  Some (16 * hi + lo).

(** A fraction lies in the unit interval. *)
Definition in_unit_interval (x : float) : bool :=
  PrimFloat.leb 0 x && PrimFloat.leb x 1.

(** Two pixmaps, or their absence, with the same size and the same pixel
    at every position. *)
Definition same_pixels `{B : Backend} (a b : option pixmap) : Prop :=
  match a, b with
  | Some pa, Some pb =>
      pm_width pa = pm_width pb ∧ pm_height pa = pm_height pb
      ∧ ∀ x y, pm_data pa x y = pm_data pb x y
  | None, None => True
  | _, _ => False
  end.

(** The fraction of [v] lies in the unit interval, and times 255 it
    rounds to [v] again. *)
Definition fraction_round_trips (v : Z) : bool :=
  in_unit_interval (fraction v)
  && bool_decide (round_double (PrimFloat.mul (fraction v) 255) = Some v).

(** The pixel a frame leaves at a position it covers: the background
    colour, the image over it, the in-memory surface over both. *)
Definition frame_pixel `{B : Backend} (e : externs) (vis : xcb_visualtype_t)
    (o : option indicator) (x y : Z) : pixel :=
  let p0 := solid vis (background_rgb (color e)) in
  let p1 := match img e with
            | Some i =>
                if negb (tile e)
                then if in_rect (image_size i).1 (image_size i).2 x y
                     then over vis (image_pixel i x y) p0
                     else p0
                else over vis (image_pixel i (x mod (image_size i).1) (y mod (image_size i).2)) p0
            | None => p0
            end in
  over vis (output_surface (dpi e) o x y) p1.

(** The size of a pixmap. *)
Definition pm_size `{B : Backend} (pm : pixmap) : Z * Z := (pm_width pm, pm_height pm).

(** The server after the three drawing steps of [draw_image]. *)
Definition frame_drawn `{B : Backend} (e : externs) (X : xserver) (sf : xcb_surface) (o : option indicator)
    (res : Z * Z) : xserver :=
  let X := fill_rgb X sf (background_rgb (color e)) res.1 res.2 in
  let X := match img e with
           | Some i =>
               if negb (tile e) then paint_image X sf i
               else fill_tiled X sf i res.1 res.2
           | None => X
           end in
  fill_surface X sf (output_surface (dpi e) o) res.1 res.2.

(** The visual [draw_image] draws with. *)
Definition visual_of `{B : Backend} (st : state) : xcb_visualtype_t :=
  match vistype st with
  | Some v => v
  | None => get_root_visual_type (screen (ext st))
  end.

(** Lines 257 to 260 of [redraw_screen]: the pixmap is there afterwards. *)
Definition ensure_bg_pixmap `{B : Backend} (st : state) (X : xserver) : state * xserver :=
  if bool_decide (bg_pixmap st = XCB_NONE)
  then (set_bg_pixmap (Npos (next_xid X)) st,
        (create_bg_pixmap X (screen (ext st)) (last_resolution (ext st)) (color (ext st))).1)
  else (st, X).

(** ** A backend to run the renderer on *)

(** A pixel is the record of what was laid down at its position, the
    latest first; the text marks the position it is anchored at. *)
Inductive paint : Set :=
  | Fill (vis : xcb_visualtype_t) (c : float * float * float)
  | Img (i : cairo_surface_t) (x y : Z)
  | Txt (d : Z) (text : list byte) (c : rgb).

Definition recording_backend : Backend :=
  {| pixel := list paint;
     argb := option paint;
     transparent := None;
     solid := λ vis c, [Fill vis c];
     over := λ _ a p, match a with Some s => s :: p | None => p end;
     image_size := λ _, (64, 64);
     image_pixel := λ i x y, Some (Img i x y);
     show_text := λ d text c ax ay x y,
       if (x =? ax) && (y =? ay) then Some (Txt d text c) else None;
     get_root_visual_type := λ scr, scr;
     junk := λ _, x41 |}.

(** The server before the first request. *)
Definition no_pixmaps `{B : Backend} : xserver := mkServer ∅ 1%positive XCB_NONE None.

(** Two characters typed after startup. *)
Definition typing_state : state :=
  mkState (set_input_position 2 startup_externs) STATE_KEY_PRESSED STATE_AUTH_IDLE 0 None XCB_NONE.

(** The collaborators change the resolution. *)
Definition set_last_resolution (res : Z * Z) (e : externs) : externs :=
  mkExterns (input_position e) res (unlock_indicator e) (img e) (tile e) (color e)
            (show_on_screen e) (xr_resolutions e) (screen e) (dpi e).

(** What is to be seen of the backing pixmap: its size and one pixel. *)
Definition backing `{B : Backend} (r : option (state * xserver)) (x y : Z)
  : option (xcb_pixmap_t * (Z * Z) * pixel) :=
  '(st, X) ← r;
  pm ← find_pixmap X (bg_pixmap st);
  Some (bg_pixmap st, pm_size pm, pm_data pm x y).

(** ** Runs of the module *)

(** The other files assign [auth_state]. *)
Definition set_auth_state (a : auth_state_t) (st : state) : state :=
  mkState (ext st) (unlock_state st) a (last_input_position st) (vistype st) (bg_pixmap st).

(** What happens to the variables of [unlock_indicator.c] while the
    program runs: the other files assign the variables they own and the
    two states, or they call one of the three entry points. *)
Inductive operation : Set :=
  | collaborators_assign (e : externs) (u : unlock_state_t) (a : auth_state_t)
  | call_redraw_screen
  | call_clear_indicator
  | call_free_bg_pixmap.

Definition run_operation `{B : Backend} (op : operation) (st : state) (X : xserver)
  : option (state * xserver) :=
  match op with
  | collaborators_assign e u a => Some (set_auth_state a (set_unlock_state u (set_ext e st)), X)
  | call_redraw_screen => redraw_screen st X
  | call_clear_indicator => clear_indicator st X
  | call_free_bg_pixmap => Some (free_bg_pixmap st X)
  end.

Fixpoint run `{B : Backend} (ops : list operation) (st : state) (X : xserver)
  : option (state * xserver) :=
  match ops with
  | [] => Some (st, X)
  | op :: ops' => '(st', X') ← run_operation op st X; run ops' st' X'
  end.

(** The handle and the server agree: the server holds no pixmap but the
    one the handle names, and a handle other than [XCB_NONE] names a
    pixmap that exists. *)
Definition coherent `{B : Backend} (st : state) (X : xserver) : Prop :=
  (∀ i, is_Some (pixmaps X !! i) → bg_pixmap st = Npos i)
  ∧ (bg_pixmap st ≠ XCB_NONE → is_Some (find_pixmap X (bg_pixmap st))).

(** * Properties *)

(** ** Character buffers *)

Section Buffers.

Implicit Types (m s r bs : list byte) (b : byte) (i off : nat).

Lemma load_nat m i : load m (Z.of_nat i) = m !! i.
Proof.
  unfold load. destruct (Z.ltb_spec (Z.of_nat i) 0); [lia|].
  by rewrite Nat2Z.id.
Qed.

Lemma store_nat m i b :
  (i < length m)%nat → store m (Z.of_nat i) b = Some (<[i := b]> m).
Proof.
  intros Hi. unfold store.
  destruct (Z.leb_spec 0 (Z.of_nat i)); [|lia].
  destruct (Z.ltb_spec (Z.of_nat i) (Z.of_nat (length m))); [|lia].
  by rewrite Nat2Z.id.
Qed.

Lemma write_bytes_nat bs : ∀ m off,
  (off + length bs ≤ length m)%nat →
  write_bytes m (Z.of_nat off) bs = Some (take off m ++ bs ++ drop (off + length bs) m).
Proof.
  induction bs as [|b bs IH]; intros m off Hlen; simpl in *.
  - by rewrite Nat.add_0_r, take_drop.
  - rewrite store_nat by lia. simpl.
    replace (Z.of_nat off + 1) with (Z.of_nat (S off)) by lia.
    rewrite IH by (rewrite length_insert; lia).
    rewrite insert_take_drop by lia.
    f_equal.
    rewrite (take_app_ge _ _ (S off)) by (rewrite length_take; lia).
    rewrite length_take, Nat.min_l by lia.
    replace (S off - off)%nat with 1%nat by lia. simpl. rewrite take_0.
    rewrite <- app_assoc. simpl. do 3 f_equal.
    rewrite drop_app_ge by (rewrite length_take; lia).
    rewrite length_take, Nat.min_l by lia.
    replace (S (off + length bs) - off)%nat with (S (length bs)) by lia.
    simpl. rewrite drop_drop. f_equal. lia.
Qed.

Lemma is_nul_spec b : is_nul b = true ↔ b = x00.
Proof. unfold is_nul. split; [apply Byte.byte_dec_bl | by intros ->]. Qed.

Lemma cstr_no_nul m : x00 ∉ cstr m.
Proof.
  induction m as [|b m IH]; simpl; [apply not_elem_of_nil|].
  destruct (is_nul b) eqn:Hb; [apply not_elem_of_nil|].
  apply not_elem_of_cons. split; [|done].
  intros <-. discriminate Hb.
Qed.

Lemma cstr_app_nul s r : x00 ∉ s → cstr (s ++ x00 :: r) = s.
Proof.
  induction s as [|b s IH]; intros Hs; simpl; [done|].
  apply not_elem_of_cons in Hs as [Hb Hs].
  destruct (is_nul b) eqn:Hnul.
  - apply is_nul_spec in Hnul. congruence.
  - by rewrite IH.
Qed.

Lemma strcpy_nat m off s :
  (off + length (cstr s) < length m)%nat →
  strcpy m (Z.of_nat off) s
  = Some (take off m ++ cstr s ++ x00 :: drop (off + length (cstr s) + 1) m).
Proof.
  intros Hlen. unfold strcpy.
  rewrite write_bytes_nat by (rewrite length_app; simpl; lia).
  rewrite length_app, Nat.add_assoc. simpl. by rewrite <- app_assoc.
Qed.

End Buffers.

(** ** The glyph-sequence builder *)

Section Builder.

Implicit Types (dest str s m r : list byte) (n : Z) (k i : nat).

Lemma length_mjoin_replicate k s :
  length (mjoin (replicate k s)) = (k * length s)%nat.
Proof. induction k as [|k IH]; simpl; [done|]. rewrite length_app, IH. lia. Qed.

Lemma snoc_of_length {A} (a : list A) k :
  length a = S k → ∃ a' x, a = a' ++ [x] ∧ length a' = k.
Proof.
  induction a as [|y a _] using rev_ind; [done|].
  rewrite length_app. simpl. intros Hk. exists a, y. split; [done|lia].
Qed.

Lemma mjoin_replicate_S_r k s :
  mjoin (replicate (S k) s) = mjoin (replicate k s) ++ s.
Proof.
  induction k as [|k IH]; simpl in *; [by rewrite app_nil_r|].
  rewrite <- app_assoc. by f_equal.
Qed.

(** A repetition of [s] reads the same one period further on. *)
Lemma mjoin_replicate_period k s i :
  (i + length s < k * length s)%nat →
  mjoin (replicate k s) !! (i + length s)%nat = mjoin (replicate k s) !! i.
Proof.
  destruct k as [|k]; [lia|]. intros Hi.
  change (mjoin (replicate (S k) s)) with (s ++ mjoin (replicate k s)) at 1.
  rewrite lookup_app_r by lia.
  rewrite mjoin_replicate_S_r, lookup_app_l.
  - f_equal. lia.
  - rewrite length_mjoin_replicate. simpl in Hi. lia.
Qed.

Lemma length_copies n s : 0 ≤ n → Z.of_nat (length (copies n s)) = n * Z.of_nat (length s).
Proof. intros Hn. unfold copies. rewrite length_mjoin_replicate. lia. Qed.

Lemma copies_no_nul n s : x00 ∉ s → x00 ∉ copies n s.
Proof.
  intros Hs. unfold copies. induction (Z.to_nat n) as [|k IH]; simpl.
  - apply not_elem_of_nil.
  - rewrite elem_of_app. tauto.
Qed.

(** The loop of [string_repeat]: with the text [t] already in place from
    offset [k] on, [k] more steps put the rest of [t] in front of it. *)
Lemma copy_down_fills t r (slen : nat) :
  (0 < slen)%nat →
  (∀ i, (i + slen < length t)%nat → t !! (i + slen)%nat = t !! i) →
  ∀ k a, length a = k → (k + slen ≤ length t)%nat →
    copy_down k (a ++ drop k t ++ r) (Z.of_nat k - 1) (Z.of_nat k - 1 + Z.of_nat slen)
    = Some (t ++ r).
Proof.
  intros Hslen Hper k. induction k as [|k IH]; intros a Ha Hk.
  - apply nil_length_inv in Ha as ->. by rewrite drop_0.
  - destruct (lookup_lt_is_Some_2 t k) as [b Hb]; [lia|].
    assert (Hpb : (a ++ drop (S k) t ++ r) !! (k + slen)%nat = Some b).
    { rewrite lookup_app_r by lia. rewrite lookup_app_l by (rewrite length_drop; lia).
      rewrite lookup_drop, <- Hb, <- (Hper k) by lia. f_equal. lia. }
    simpl copy_down.
    destruct (Z.ltb_spec (Z.of_nat (S k) - 1) 0) as [|_]; [lia|].
    replace (Z.of_nat (S k) - 1 + Z.of_nat slen) with (Z.of_nat (k + slen)) by lia.
    replace (Z.of_nat (S k) - 1) with (Z.of_nat k) by lia.
    rewrite load_nat, Hpb. simpl.
    rewrite store_nat by (rewrite length_app; lia). simpl.
    destruct (snoc_of_length a k Ha) as (a' & x & -> & Ha').
    replace (Z.of_nat (k + slen) - 1) with (Z.of_nat k - 1 + Z.of_nat slen) by lia.
    rewrite <- (IH a' Ha') by lia. f_equal.
    rewrite <- app_assoc. rewrite insert_app_r_alt by lia.
    rewrite Ha', Nat.sub_diag. simpl.
    by rewrite (drop_S t b k Hb).
Qed.

Lemma clamp_range n : 0 ≤ clamp n ≤ 64.
Proof.
  unfold clamp. destruct (Z.leb_spec n 0); [lia|].
  destruct (Z.geb_spec n 64); lia.
Qed.

Lemma to_int_small z : INT_MIN ≤ z ≤ INT_MAX → to_int z = z.
Proof.
  unfold INT_MIN, INT_MAX, to_int. intros Hz.
  rewrite Z.mod_small by lia. lia.
Qed.

(** A positive count: [clamp n] copies, the terminator, and the rest of
    the array as it was. *)
Lemma string_repeat_positive dest str n :
  0 < n →
  clamp n * strlen str + 1 ≤ Z.of_nat (length dest) ≤ INT_MAX →
  string_repeat dest str n
  = Some (copies (clamp n) (cstr str)
          ++ x00 :: drop (Z.to_nat (clamp n * strlen str + 1)) dest).
Proof.
  intros Hn Hfit. unfold string_repeat, strlen in *.
  assert (Hc : clamp n = if n >=? 64 then 64 else n).
  { unfold clamp. destruct (Z.leb_spec n 0); [lia|done]. }
  pose proof (clamp_range n) as Hrange.
  destruct (Z.leb_spec n 0) as [|_]; [lia|].
  rewrite <- Hc. clear Hc.
  assert (1 ≤ clamp n).
  { unfold clamp. destruct (Z.leb_spec n 0); [lia|]. destruct (Z.geb_spec n 64); lia. }
  set (s := cstr str) in *. set (c := clamp n) in *.
  assert (Hj : ∃ j : nat, c = Z.of_nat j + 1) by (exists (Z.to_nat (c - 1)); lia).
  destruct Hj as [j Hj]. set (l := length s) in *.
  rewrite to_int_small by (unfold INT_MIN, INT_MAX in *; nia).
  unfold int_mul.
  destruct (Z.leb_spec INT_MIN ((c - 1) * Z.of_nat l));
    [|unfold INT_MIN, INT_MAX in *; nia].
  destruct (Z.leb_spec ((c - 1) * Z.of_nat l) INT_MAX);
    [|unfold INT_MIN, INT_MAX in *; nia].
  simpl.
  set (k := (j * l)%nat).
  replace ((c - 1) * Z.of_nat l) with (Z.of_nat k) by (unfold k; nia).
  rewrite strcpy_nat by (fold s; fold l; unfold k; nia). fold s; fold l. simpl.
  replace (Z.of_nat k - 1 + 1) with (Z.of_nat k) by lia. rewrite Nat2Z.id.
  assert (Ht : copies c s = mjoin (replicate j s) ++ s).
  { unfold copies. replace (Z.to_nat c) with (S j) by lia.
    apply mjoin_replicate_S_r. }
  assert (Hlen : length (copies c s) = (k + l)%nat).
  { rewrite Ht, length_app, length_mjoin_replicate. done. }
  assert (Hdrop : drop k (copies c s) = s).
  { rewrite Ht. rewrite drop_app_length'; [done|]. by rewrite length_mjoin_replicate. }
  replace (Z.to_nat (c * Z.of_nat l + 1)) with (k + l + 1)%nat by (unfold k; nia).
  destruct (decide (l = 0)%nat) as [Hs0|Hs].
  - assert (k = 0)%nat as Hk by (unfold k; lia). rewrite Hk in *.
    unfold l in Hs0. apply nil_length_inv in Hs0. rewrite Hs0 in *. simpl.
    rewrite drop_0 in Hdrop. by rewrite Hdrop.
  - rewrite <- Hdrop at 1.
    rewrite (copy_down_fills (copies c s) _ l).
    + done.
    + lia.
    + intros i Hi. rewrite Hlen in Hi. unfold copies.
      replace (Z.to_nat c) with (S j) by lia.
      apply mjoin_replicate_period. fold l. unfold k in Hi. nia.
    + rewrite length_take. unfold k in *. nia.
    + lia.
Qed.

Lemma strcpy_empty dest :
  (0 < length dest)%nat → strcpy dest 0 [] = Some (x00 :: drop 1 dest).
Proof.
  intros Hlen. change 0 with (Z.of_nat 0).
  rewrite strcpy_nat by (simpl; lia). done.
Qed.

(** The builder as [draw_image] uses it: on a buffer that holds the empty
    string, any count leaves [clamp n] copies, terminated. *)
Lemma string_repeat_initialised dest str n :
  clamp n * strlen str + 1 ≤ Z.of_nat (length dest) ≤ INT_MAX →
  (strcpy dest 0 [] ≫= λ text, string_repeat text str n)
  = Some (copies (clamp n) (cstr str)
          ++ x00 :: drop (Z.to_nat (clamp n * strlen str + 1)) dest).
Proof.
  intros Hfit. pose proof (clamp_range n) as Hrange.
  assert (0 ≤ strlen str) by (unfold strlen; lia).
  rewrite strcpy_empty by nia. simpl.
  destruct (Z.leb_spec n 0) as [Hn|Hn].
  - unfold string_repeat, clamp. destruct (Z.leb_spec n 0); [|lia]. done.
  - assert (Hlen : length (x00 :: drop 1 dest) = length dest).
    { destruct dest; simpl in *; [nia|]. by rewrite drop_0. }
    rewrite string_repeat_positive; [|done|by rewrite Hlen].
    do 3 f_equal.
    assert (1 ≤ clamp n).
    { unfold clamp. destruct (Z.leb_spec n 0); [lia|]. destruct (Z.geb_spec n 64); lia. }
    replace (Z.to_nat (clamp n * strlen str + 1)) with (S (Z.to_nat (clamp n * strlen str))) by nia.
    destruct dest; [done|]. simpl. by rewrite drop_0.
Qed.

Lemma cstr_copies_nul n str r : cstr (copies n (cstr str) ++ x00 :: r) = copies n (cstr str).
Proof. apply cstr_app_nul, copies_no_nul, cstr_no_nul. Qed.

(** C4: for every count [n] and every glyph string, the builder, run as the
    renderer runs it on a buffer with room for the result, leaves the
    empty string if [n <= 0], exactly 64 copies of the glyph if [n > 64],
    and exactly [n] copies if [0 < n <= 64]; the copies are the bytes of
    the glyph one after the other, and a NUL follows the last one. *)
Theorem string_repeat_builds_copies dest str n :
  clamp n * strlen str + 1 ≤ Z.of_nat (length dest) ≤ INT_MAX →
  ∃ dest',
    (strcpy dest 0 [] ≫= λ text, string_repeat text str n) = Some dest'
    ∧ dest' = copies (clamp n) (cstr str)
              ++ x00 :: drop (Z.to_nat (clamp n * strlen str + 1)) dest
    ∧ (n ≤ 0 → cstr dest' = [])
    ∧ (64 < n → cstr dest' = mjoin (replicate 64 (cstr str)))
    ∧ (0 < n ≤ 64 → cstr dest' = mjoin (replicate (Z.to_nat n) (cstr str))).
Proof.
  intros Hfit. eexists. split; [by apply string_repeat_initialised|].
  split; [done|]. rewrite cstr_copies_nul. unfold clamp, copies.
  repeat split; intros Hn.
  - destruct (Z.leb_spec n 0); [done|lia].
  - destruct (Z.leb_spec n 0); [lia|]. destruct (Z.geb_spec n 64); [done|lia].
  - destruct (Z.leb_spec n 0); [lia|]. destruct (Z.geb_spec n 64); [|done].
    by replace n with 64 by lia.
Qed.

Lemma string_repeat_builds_copies_witness :
  cstr <$> (strcpy [x41; x42; x43; x44; x45; x46; x47; x48] 0 []
            ≫= λ text, string_repeat text dot 2)
  = Some (dot ++ dot).
Proof.
  destruct (string_repeat_builds_copies [x41; x42; x43; x44; x45; x46; x47; x48] dot 2)
    as (dest' & -> & _ & _ & _ & Hn).
  - split; by vm_compute.
  - simpl. rewrite Hn; [reflexivity|lia].
Defined.

(** C10: for every count [n <= 0] and every destination, [string_repeat]
    returns with the destination as it was, terminator included; what the
    destination holds afterwards is the empty string only if it was so
    before, as it is after the caller's [strcpy(text, "")]. *)
Theorem string_repeat_nonpositive_writes_nothing dest str n :
  n ≤ 0 →
  string_repeat dest str n = Some dest
  ∧ (cstr dest ≠ [] → cstr <$> string_repeat dest str n ≠ Some [])
  ∧ (∀ text, strcpy dest 0 [] = Some text →
       cstr <$> string_repeat text str n = Some []).
Proof.
  intros Hn.
  assert (Hid : ∀ d, string_repeat d str n = Some d).
  { intros d. unfold string_repeat. destruct (Z.leb_spec n 0); [done|lia]. }
  split; [apply Hid|]. split.
  - rewrite Hid. simpl. congruence.
  - intros text Htext. rewrite Hid. simpl. f_equal.
    destruct dest as [|b dest]; [done|].
    rewrite strcpy_empty in Htext by (simpl; lia). by injection Htext as <-.
Qed.

Lemma string_repeat_nonpositive_writes_nothing_witness :
  string_repeat [x61; x62; x00; x63] dot (-1) = Some [x61; x62; x00; x63]
  ∧ cstr <$> string_repeat [x61; x62; x00; x63] dot (-1) = Some [x61; x62].
Proof.
  destruct (string_repeat_nonpositive_writes_nothing [x61; x62; x00; x63] dot (-1))
    as (Hsame & _ & _); [lia|].
  split; [exact Hsame|]. rewrite Hsame. reflexivity.
Defined.

Lemma length_malloc (f : nat → byte) k : length (malloc f k) = k.
Proof. unfold malloc. by rewrite length_fmap, length_seq. Qed.

(** The buffer of the renderer after lines 157 to 163, for a count [n]. *)
Lemma text_of_count (f : nat → byte) n :
  (strcpy (malloc f 256) 0 [] ≫= λ text, string_repeat text dot n)
  = Some (copies (clamp n) dot ++ x00 :: drop (Z.to_nat (clamp n * 3 + 1)) (malloc f 256)).
Proof.
  pose proof (clamp_range n).
  apply (string_repeat_initialised (malloc f 256) dot n).
  rewrite length_malloc. change (strlen dot) with 3. unfold INT_MAX. lia.
Qed.

Example string_repeat_three_of_two_bytes :
  string_repeat [x00; x41; x41; x41; x41; x41; x41; x41] [x61; x62] 3
  = Some [x61; x62; x61; x62; x61; x62; x00; x41].
Proof. reflexivity. Qed.

Example string_repeat_dots_keep_their_bytes :
  cstr <$> (strcpy (malloc (λ _, x41) 256) 0 [] ≫= λ text, string_repeat text dot 3)
  = Some [xe2; x80; xa2; xe2; x80; xa2; xe2; x80; xa2].
Proof. reflexivity. Qed.

Example string_repeat_seventy_is_sixty_four :
  (length ∘ cstr) <$> (strcpy (malloc (λ _, x41) 256) 0 [] ≫= λ text, string_repeat text dot 70)
  = Some 192%nat.
Proof. vm_compute. reflexivity. Qed.

(** One byte short of the room the copies and the terminator need, the
    [strcpy] of [string_repeat] runs over the end of the array. *)
Example string_repeat_needs_room :
  string_repeat [x00; x41; x41; x41; x41; x41] dot 2 = None.
Proof. reflexivity. Qed.

End Builder.

(** ** The text buffer of the renderer *)

Section TextBuffer.

Implicit Types (f : nat → byte) (st : state) (n : Z) (text : list byte).

(** The counter that [build_text] hands to [string_repeat]. *)
Lemma build_text_count f st :
  build_text f st
  = (strcpy (malloc f 256) 0 [] ≫= λ text,
       string_repeat text dot
         (if bool_decide (auth_state st = STATE_AUTH_WRONG)
             || bool_decide (auth_state st = STATE_I3LOCK_LOCK_FAILED)
          then last_input_position st else input_position (ext st))).
Proof. unfold build_text. by destruct (_ || _). Qed.

Lemma length_text_of_count f n :
  length (copies (clamp n) dot ++ x00 :: drop (Z.to_nat (clamp n * 3 + 1)) (malloc f 256))
  = 256%nat.
Proof.
  pose proof (clamp_range n).
  rewrite length_app. simpl. rewrite length_drop, length_malloc.
  pose proof (length_copies (clamp n) dot). simpl in *. lia.
Qed.

Lemma lookup_text_of_count f n i :
  (193 ≤ i)%nat →
  (copies (clamp n) dot ++ x00 :: drop (Z.to_nat (clamp n * 3 + 1)) (malloc f 256)) !! i
  = malloc f 256 !! i.
Proof.
  intros Hi. pose proof (clamp_range n).
  pose proof (length_copies (clamp n) dot) as Hlen. simpl in Hlen.
  rewrite lookup_app_r by lia.
  destruct (i - length (copies (clamp n) dot))%nat as [|j] eqn:Hj; [lia|]. simpl.
  rewrite lookup_drop. f_equal. lia.
Qed.

(** C9: the 256 bytes of [text] are never exceeded. For every count, and
    so for every [input_position] and [last_input_position], the calls of
    lines 158 to 163 stay inside the buffer, leave a string of at most
    [64 * 3] bytes before its NUL, and touch no byte at offset 193 or
    beyond; the [strcpy] of line 186 stays inside it as well. *)
Theorem text_buffer_never_overflows f st n :
  (∃ text,
     (strcpy (malloc f 256) 0 [] ≫= λ t, string_repeat t dot n) = Some text
     ∧ length text = 256%nat
     ∧ Z.of_nat (length (cstr text)) + 1 ≤ 64 * 3 + 1
     ∧ ∀ i, (193 ≤ i)%nat → text !! i = malloc f 256 !! i)
  ∧ (∃ text,
       build_text f st = Some text
       ∧ length text = 256%nat
       ∧ Z.of_nat (length (cstr text)) + 1 ≤ 64 * 3 + 1
       ∧ (∀ i, (193 ≤ i)%nat → text !! i = malloc f 256 !! i)
       ∧ ∃ text' c, select_color st text = Some (text', c) ∧ length text' = 256%nat).
Proof.
  assert (Hgen : ∀ k, ∃ text,
    (strcpy (malloc f 256) 0 [] ≫= λ t, string_repeat t dot k) = Some text
    ∧ length text = 256%nat
    ∧ Z.of_nat (length (cstr text)) + 1 ≤ 64 * 3 + 1
    ∧ ∀ i, (193 ≤ i)%nat → text !! i = malloc f 256 !! i).
  { intros k. eexists. split; [apply text_of_count|].
    split; [apply length_text_of_count|]. split; [|apply lookup_text_of_count].
    change dot with (cstr dot) at 1. rewrite cstr_copies_nul.
    pose proof (clamp_range k). pose proof (length_copies (clamp k) dot) as Hlen.
    simpl in Hlen. change (cstr dot) with dot. lia. }
  split; [apply Hgen|].
  rewrite build_text_count.
  destruct (Hgen (if bool_decide (auth_state st = STATE_AUTH_WRONG)
                     || bool_decide (auth_state st = STATE_I3LOCK_LOCK_FAILED)
                  then last_input_position st else input_position (ext st)))
    as (text & -> & Hlen & Hstr & Hrest).
  exists text. repeat split; try done.
  unfold select_color.
  destruct (auth_state st); try (destruct (_ <? _)); eauto.
  case_bool_decide; eauto.
  rewrite strcpy_empty by lia. simpl. do 2 eexists. split; [done|].
  simpl. rewrite length_drop. lia.
Qed.

End TextBuffer.

(** ** The indicator *)

Section Indicator.

Implicit Types (f : nat → byte) (st : state) (n : Z) (text : list byte)
  (xr : list Rect) (res : Z * Z).

Lemma screen_placement_empty idx res :
  screen_placement [] idx res = Some (mkPlacement (res.1 ÷ 2) (res.2 ÷ 2) 0 0, None).
Proof. done. Qed.

Lemma screen_placement_in_range xr idx res r :
  0 ≤ idx → xr !! Z.to_nat idx = Some r →
  screen_placement xr idx res = Some (place_on r, None).
Proof.
  intros Hidx Hr. apply lookup_lt_Some in Hr as Hlt.
  unfold screen_placement, xr_screens.
  destruct (Z.ltb_spec 0 (Z.of_nat (length xr))); [|lia].
  destruct (Z.leb_spec 0 idx); [|lia].
  destruct (Z.ltb_spec idx (Z.of_nat (length xr))); [|lia].
  simpl. by rewrite Hr.
Qed.

Lemma screen_placement_fallback xr idx res r0 :
  xr !! 0%nat = Some r0 → idx < 0 ∨ Z.of_nat (length xr) ≤ idx →
  ∃ d, screen_placement xr idx res = Some (place_on r0, Some d).
Proof.
  intros Hr Hidx. apply lookup_lt_Some in Hr as Hlt.
  unfold screen_placement, xr_screens.
  destruct (Z.ltb_spec 0 (Z.of_nat (length xr))); [|lia].
  destruct (Z.leb_spec 0 idx), (Z.ltb_spec idx (Z.of_nat (length xr))),
    (Z.leb_spec (Z.of_nat (length xr)) idx); simpl; try lia;
    change (Z.to_nat 0) with 0%nat; rewrite Hr; simpl; eauto.
Qed.

Lemma screen_placement_total xr idx res : is_Some (screen_placement xr idx res).
Proof.
  destruct xr as [|r0 xr'] eqn:Hxr; [by rewrite screen_placement_empty|].
  rewrite <- Hxr.
  destruct (decide (0 ≤ idx ∧ idx < Z.of_nat (length xr))) as [[H0 Hlt]|Hout].
  - destruct (lookup_lt_is_Some_2 xr (Z.to_nat idx)) as [r Hr]; [lia|].
    by rewrite (screen_placement_in_range xr idx res r).
  - destruct (screen_placement_fallback xr idx res r0) as [d ->]; [by subst|lia|done].
Qed.

Lemma remember_input_idemp st : remember_input (remember_input st) = remember_input st.
Proof.
  unfold remember_input. destruct (0 <? input_position (ext st)) eqn:Hpos; simpl.
  - by rewrite Hpos.
  - by rewrite Hpos.
Qed.

Lemma overlay_drawn_remember st : overlay_drawn (remember_input st) = overlay_drawn st.
Proof. unfold remember_input. by destruct (0 <? _). Qed.

Lemma build_text_total f st :
  ∃ text, build_text f st = Some text ∧ length text = 256%nat.
Proof.
  rewrite build_text_count. rewrite text_of_count.
  eexists. split; [done|]. apply length_text_of_count.
Qed.

Lemma select_color_total st text :
  (0 < length text)%nat → ∃ text' c, select_color st text = Some (text', c).
Proof.
  intros Hlen. unfold select_color.
  destruct (auth_state st); try (destruct (_ <? _)); eauto.
  case_bool_decide; eauto. rewrite strcpy_empty by done. simpl. eauto.
Qed.

(** What [draw_indicator] returns when the overlay is drawn. *)
Lemma draw_indicator_drawn f st :
  overlay_drawn st = true →
  ∃ text text' c pl d,
    build_text f (remember_input st) = Some text
    ∧ select_color (remember_input st) text = Some (text', c)
    ∧ screen_placement (xr_resolutions (ext st)) (show_on_screen (ext st))
                       (last_resolution (ext st)) = Some (pl, d)
    ∧ draw_indicator f st
      = Some (remember_input st, Some (mkIndicator (cstr text') c pl)).
Proof.
  intros Hdrawn.
  destruct (build_text_total f (remember_input st)) as (text & Htext & Hlen).
  destruct (select_color_total (remember_input st) text) as (text' & c & Hc); [lia|].
  destruct (screen_placement_total (xr_resolutions (ext st)) (show_on_screen (ext st))
              (last_resolution (ext st))) as [[pl d] Hpl].
  exists text, text', c, pl, d. repeat split; try done.
  unfold draw_indicator. rewrite Hdrawn, Htext. simpl. rewrite Hc. simpl.
  assert (ext (remember_input st) = ext st) as ->.
  { unfold remember_input. by destruct (0 <? _). }
  by rewrite Hpl.
Qed.

Lemma draw_indicator_skipped f st :
  overlay_drawn st = false → draw_indicator f st = Some (st, None).
Proof. intros Hdrawn. unfold draw_indicator. by rewrite Hdrawn. Qed.

Lemma build_text_cstr f st :
  cstr <$> build_text f st
  = Some (copies (clamp (if bool_decide (auth_state st = STATE_AUTH_WRONG)
                            || bool_decide (auth_state st = STATE_I3LOCK_LOCK_FAILED)
                         then last_input_position st else input_position (ext st))) dot).
Proof.
  rewrite build_text_count, text_of_count. simpl. f_equal.
  change dot with (cstr dot). apply cstr_copies_nul.
Qed.

Lemma remember_input_fields st :
  ext (remember_input st) = ext st
  ∧ auth_state (remember_input st) = auth_state st
  ∧ unlock_state (remember_input st) = unlock_state st
  ∧ vistype (remember_input st) = vistype st
  ∧ bg_pixmap (remember_input st) = bg_pixmap st.
Proof. unfold remember_input. by destruct (0 <? _). Qed.

Lemma last_input_position_remember st :
  last_input_position (remember_input st)
  = if 0 <? input_position (ext st) then input_position (ext st) else last_input_position st.
Proof. unfold remember_input. by destruct (0 <? _). Qed.

(** C1: in a render that draws the overlay, the count handed to the
    builder is [last_input_position] when the authentication state is
    "wrong password" or "lock failed", and the live [input_position]
    otherwise; the text shown is the text so built, except under the
    override of the default branch. With "wrong password", "key pressed",
    an empty input and a remembered length of 4, four glyphs are shown,
    in white and not in red. *)
Theorem glyph_count_source f st :
  overlay_drawn st = true →
  ∃ text i,
    build_text f (remember_input st) = Some text
    ∧ draw_indicator f st = Some (remember_input st, Some i)
    ∧ (auth_state st = STATE_AUTH_WRONG ∨ auth_state st = STATE_I3LOCK_LOCK_FAILED →
         cstr text = copies (clamp (last_input_position (remember_input st))) dot)
    ∧ (auth_state st ≠ STATE_AUTH_WRONG → auth_state st ≠ STATE_I3LOCK_LOCK_FAILED →
         cstr text = copies (clamp (input_position (ext st))) dot)
    ∧ (auth_state st ≠ STATE_AUTH_IDLE ∨ unlock_state st ≠ STATE_NOTHING_TO_DELETE →
         ind_text i = cstr text)
    ∧ (auth_state st = STATE_AUTH_WRONG → unlock_state st = STATE_KEY_PRESSED →
       input_position (ext st) = 0 → last_input_position st = 4 →
         ind_text i = dot ++ dot ++ dot ++ dot ∧ glyphs (ind_text i) = 4
         ∧ ind_rgb i = white ∧ ind_rgb i ≠ red).
Proof.
  intros Hdrawn.
  destruct (draw_indicator_drawn f st Hdrawn) as (text & text' & c & pl & d & Htext & Hc & _ & Hdraw).
  destruct (remember_input_fields st) as (Hext & Hauth & Hunlock & _).
  pose proof (build_text_cstr f (remember_input st)) as Hcstr.
  rewrite Htext, Hext, Hauth in Hcstr. simpl in Hcstr. apply (inj Some) in Hcstr.
  exists text, (mkIndicator (cstr text') c pl). simpl.
  split; [done|]. split; [done|].
  assert (Hsame : auth_state st ≠ STATE_AUTH_IDLE ∨ unlock_state st ≠ STATE_NOTHING_TO_DELETE →
                  text' = text).
  { unfold select_color in Hc. rewrite Hauth, Hunlock in Hc. intros Hnot.
    destruct (auth_state st); try (destruct (_ <? _)); try by injection Hc.
    destruct (unlock_state st); try (by destruct Hnot); simpl in Hc; by injection Hc. }
  split; [|split; [|split]].
  - intros [Hw|Hw]; by rewrite Hcstr, Hw.
  - intros Hw Hl. rewrite Hcstr. by repeat (case_bool_decide; try done).
  - intros Hnot. by rewrite (Hsame Hnot).
  - intros Hw Hu Hin Hlast.
    assert (text' = text) as -> by (apply Hsame; left; by rewrite Hw).
    rewrite Hcstr, Hw.
    rewrite last_input_position_remember, Hin, Hlast.
    unfold select_color in Hc. rewrite Hauth, Hunlock, Hw, Hu in Hc. injection Hc as <-.
    repeat split; done.
Qed.

Lemma glyph_count_source_witness :
  let st := mkState startup_externs STATE_KEY_PRESSED STATE_AUTH_WRONG 4 None XCB_NONE in
  ∃ i, (snd <$> draw_indicator (λ _, x00) st) = Some (Some i)
       ∧ ind_text i = dot ++ dot ++ dot ++ dot ∧ ind_rgb i = white.
Proof.
  intros st.
  destruct (glyph_count_source (λ _, x00) st) as (text & i & _ & Hdraw & _ & _ & _ & Hscen).
  - reflexivity.
  - exists i. rewrite Hdraw. split; [reflexivity|].
    destruct Hscen as (Htext & _ & Hwhite & _); done.
Defined.

(** C3: with the authentication idle, "nothing to delete" and an empty
    input, no glyph is drawn, whatever [last_input_position] holds: the
    default branch of the colour switch empties the text for "nothing to
    delete". *)
Theorem nothing_to_delete_draws_no_glyph f st :
  auth_state st = STATE_AUTH_IDLE →
  unlock_state st = STATE_NOTHING_TO_DELETE →
  input_position (ext st) = 0 →
  (∃ st' o, draw_indicator f st = Some (st', o)
            ∧ drawn_text o = [] ∧ glyphs (drawn_text o) = 0)
  ∧ (∀ text, (0 < length text)%nat →
       ∃ text', select_color st text = Some (text', white) ∧ cstr text' = []).
Proof.
  intros Hauth Hunlock Hin.
  assert (Hsel : ∀ st0 text, auth_state st0 = STATE_AUTH_IDLE →
            unlock_state st0 = STATE_NOTHING_TO_DELETE → (0 < length text)%nat →
            ∃ text', select_color st0 text = Some (text', white) ∧ cstr text' = []).
  { intros st0 text Ha Hu Hlen. unfold select_color. rewrite Ha, Hu. simpl.
    rewrite strcpy_empty by done. simpl. eauto. }
  split; [|intros text; by apply Hsel].
  destruct (overlay_drawn st) eqn:Hdrawn.
  - destruct (draw_indicator_drawn f st Hdrawn)
      as (text & text' & c & pl & d & Htext & Hc & _ & ->).
    destruct (remember_input_fields st) as (_ & Hauth' & Hunlock' & _).
    destruct (build_text_total f (remember_input st)) as (text0 & Htext0 & Hlen).
    rewrite Htext in Htext0. injection Htext0 as <-.
    destruct (Hsel (remember_input st) text) as (t & Ht & Hempty); [congruence..|lia|].
    rewrite Hc in Ht. injection Ht as <- _.
    do 2 eexists. split; [done|]. simpl. by rewrite Hempty.
  - rewrite draw_indicator_skipped by done. by do 2 eexists.
Qed.

Lemma nothing_to_delete_draws_no_glyph_witness :
  let st := mkState startup_externs STATE_NOTHING_TO_DELETE STATE_AUTH_IDLE 7 None XCB_NONE in
  (drawn_text ∘ snd) <$> draw_indicator (λ _, x00) st = Some [].
Proof.
  intros st.
  destruct (nothing_to_delete_draws_no_glyph (λ _, x00) st)
    as [(st' & o & -> & Hempty & _) _]; try reflexivity.
  simpl. by rewrite Hempty.
Defined.

(** The state after one render. *)
Lemma draw_indicator_state f st :
  ∃ o, draw_indicator f st
       = Some (if overlay_drawn st then remember_input st else st, o).
Proof.
  destruct (overlay_drawn st) eqn:Hdrawn.
  - destruct (draw_indicator_drawn f st Hdrawn) as (? & ? & ? & ? & ? & _ & _ & _ & ->). eauto.
  - rewrite draw_indicator_skipped by done. eauto.
Qed.

(** A render with the input length set to [n] first, overlay drawn. *)
Lemma render_with_input f st n :
  overlay_drawn st = true →
  ∃ st' o,
    draw_indicator f (set_ext (set_input_position n (ext st)) st) = Some (st', o)
    ∧ overlay_drawn st' = true
    ∧ last_input_position st' = if 0 <? n then n else last_input_position st.
Proof.
  intros Hdrawn. set (st0 := set_ext (set_input_position n (ext st)) st).
  assert (Hdrawn0 : overlay_drawn st0 = true) by done.
  destruct (draw_indicator_state f st0) as [o Ho]. rewrite Hdrawn0 in Ho.
  exists (remember_input st0), o. split; [done|]. split.
  - by rewrite overlay_drawn_remember.
  - by rewrite last_input_position_remember.
Qed.

(** C2, as the code has it: [last_input_position] is assigned only in a
    render that draws the overlay and finds [input_position] strictly
    positive, and then it takes that value; it is never set back to 0;
    over successive renders that draw the overlay, the input lengths 5, 0,
    0, 3 leave the values 5, 5, 5, 3. *)
Theorem last_length_follows_positive_input f st :
  overlay_drawn st = true →
  last_lengths f st [5; 0; 0; 3] = Some [5; 5; 5; 3]
  ∧ ∀ st0, ∃ st' o,
      draw_indicator f st0 = Some (st', o)
      ∧ (last_input_position st' ≠ last_input_position st0 →
           overlay_drawn st0 = true ∧ 0 < input_position (ext st0)
           ∧ last_input_position st' = input_position (ext st0))
      ∧ (overlay_drawn st0 = false → last_input_position st' = last_input_position st0)
      ∧ (last_input_position st' = 0 → last_input_position st0 = 0).
Proof.
  intros Hdrawn. split.
  - simpl.
    destruct (render_with_input f st 5 Hdrawn) as (st1 & o1 & -> & Hd1 & Hl1). simpl.
    destruct (render_with_input f st1 0 Hd1) as (st2 & o2 & -> & Hd2 & Hl2). simpl.
    destruct (render_with_input f st2 0 Hd2) as (st3 & o3 & -> & Hd3 & Hl3). simpl.
    destruct (render_with_input f st3 3 Hd3) as (st4 & o4 & -> & Hd4 & Hl4). simpl.
    simpl in *. by rewrite Hl4, Hl3, Hl2, Hl1.
  - intros st0. destruct (draw_indicator_state f st0) as [o ->].
    do 2 eexists. split; [done|].
    destruct (overlay_drawn st0); [|done].
    rewrite last_input_position_remember.
    destruct (Z.ltb_spec 0 (input_position (ext st0))); repeat split; try done; lia.
Qed.

Lemma last_length_follows_positive_input_witness :
  last_lengths (λ _, x00)
    (mkState startup_externs STATE_KEY_PRESSED STATE_AUTH_IDLE 0 None XCB_NONE)
    [5; 0; 0; 3] = Some [5; 5; 5; 3].
Proof.
  apply (last_length_follows_positive_input (λ _, x00)
           (mkState startup_externs STATE_KEY_PRESSED STATE_AUTH_IDLE 0 None XCB_NONE)).
  reflexivity.
Defined.

(** C2, as stated, fails: with the indicator switched off no render draws
    the overlay, and the input lengths 5, 0, 0, 3 leave
    [last_input_position] at its initial 0. *)
Lemma last_length_kept_without_overlay :
  last_lengths (λ _, x00)
    (mkState (without_indicator startup_externs) STATE_KEY_PRESSED STATE_AUTH_IDLE 0 None XCB_NONE)
    [5; 0; 0; 3] = Some [0; 0; 0; 0]
  ∧ ¬ (∀ f st, last_lengths f st [5; 0; 0; 3] = Some [5; 5; 5; 3]).
Proof.
  split; [reflexivity|].
  intros Hall.
  specialize (Hall (λ _, x00)
    (mkState (without_indicator startup_externs) STATE_KEY_PRESSED STATE_AUTH_IDLE 0 None XCB_NONE)).
  discriminate Hall.
Qed.

(** C6: the placement is a function of the topology, the selected index
    and the resolution alone. Without topology it is the middle of the
    resolution with no offset; with an index inside the topology it is
    that screen's half width and half height and its position; with any
    other index, negative or too large, it is that of screen 0. The
    overlay is placed by this function. *)
Theorem screen_placement_resolves xr idx res :
  (xr = [] →
     screen_placement xr idx res = Some (mkPlacement (res.1 ÷ 2) (res.2 ÷ 2) 0 0, None))
  ∧ (∀ r, 0 ≤ idx < Z.of_nat (length xr) → xr !! Z.to_nat idx = Some r →
       fst <$> screen_placement xr idx res
       = Some (mkPlacement (rect_width r ÷ 2) (rect_height r ÷ 2) (rect_x r) (rect_y r)))
  ∧ (∀ r0, xr !! 0%nat = Some r0 → idx < 0 ∨ Z.of_nat (length xr) ≤ idx →
       fst <$> screen_placement xr idx res
       = Some (mkPlacement (rect_width r0 ÷ 2) (rect_height r0 ÷ 2) (rect_x r0) (rect_y r0)))
  ∧ (∀ f st, overlay_drawn st = true →
       ∃ i, draw_indicator f st = Some (remember_input st, Some i)
            ∧ Some (ind_placement i)
              = fst <$> screen_placement (xr_resolutions (ext st)) (show_on_screen (ext st))
                                         (last_resolution (ext st))).
Proof.
  split; [by intros ->|]. split; [|split].
  - intros r [Hidx _] Hr. by rewrite (screen_placement_in_range xr idx res r).
  - intros r0 Hr0 Hidx.
    by destruct (screen_placement_fallback xr idx res r0 Hr0 Hidx) as [d ->].
  - intros f st Hdrawn.
    destruct (draw_indicator_drawn f st Hdrawn) as (? & ? & ? & pl & d & _ & _ & Hpl & ->).
    eexists. split; [done|]. by rewrite Hpl.
Qed.

Example screen_placement_second_of_two :
  fst <$> screen_placement [mkRect 0 0 1920 1080; mkRect 1920 0 1281 1024] 1 (3201, 1080)
  = Some (mkPlacement 640 512 1920 0).
Proof. reflexivity. Qed.

Example screen_placement_unset_index :
  screen_placement [mkRect 0 0 1920 1080; mkRect 1920 0 1281 1024] (-1) (3201, 1080)
  = Some (mkPlacement 960 540 0 0, Some no_screen_index).
Proof. reflexivity. Qed.

Example screen_placement_index_too_large :
  screen_placement [mkRect 0 0 1920 1080; mkRect 1920 0 1281 1024] 2 (3201, 1080)
  = Some (mkPlacement 960 540 0 0, Some (screen_out_of_bounds 2 2)).
Proof. reflexivity. Qed.

Example screen_placement_no_topology :
  screen_placement [] 0 (3201, 1080) = Some (mkPlacement 1600 540 0 0, None).
Proof. reflexivity. Qed.

End Indicator.

(** ** The colour parser *)

Section ColourParser.

Implicit Types (c : byte) (color s : list byte) (v d : Z).

Lemma hex_digit_char c d :
  hex_digit c = Some d →
  0 ≤ d ≤ 15 ∧ is_nul c = false ∧ isspace c = false
  ∧ ∀ s, strtol_sign (c :: s) = (1, c :: s).
Proof.
  intros Hd. destruct c; cbv in Hd; try discriminate Hd;
    injection Hd as <-; repeat split; (done || lia).
Qed.

Lemma strtol_prefix_two c0 c1 : strtol_prefix [c0; c1] = [c0; c1].
Proof. by destruct c0. Qed.

(** A group of two hexadecimal digits parses to sixteen times the first
    digit plus the second. *)
Lemma strtol16_two_digits c0 c1 d0 d1 :
  hex_digit c0 = Some d0 → hex_digit c1 = Some d1 →
  strtol16 [c0; c1; x00] = 16 * d0 + d1.
Proof.
  intros H0 H1.
  destruct (hex_digit_char c0 d0 H0) as (_ & Hn0 & Hs0 & Hsign).
  destruct (hex_digit_char c1 d1 H1) as (_ & Hn1 & _ & _).
  unfold strtol16. simpl cstr. rewrite Hn0, Hn1. simpl skip_space. rewrite Hs0.
  rewrite Hsign, strtol_prefix_two. simpl. rewrite H0, H1. lia.
Qed.

Lemma fraction_round_trips_all :
  forallb fraction_round_trips (Z.of_nat <$> seq 0 256) = true.
Proof. vm_compute. reflexivity. Qed.

Lemma fraction_round_trips_byte v : 0 ≤ v ≤ 255 → fraction_round_trips v = true.
Proof.
  intros Hv. pose proof fraction_round_trips_all as Hall.
  rewrite forallb_forall in Hall. apply Hall.
  apply list_elem_of_In, list_elem_of_fmap. exists (Z.to_nat v). split; [lia|].
  apply elem_of_seq. lia.
Qed.

(** C8: for a colour string of six hexadecimal digits, each of the three
    fractions [rgb16[i] / 255.0] lies between 0 and 1, and multiplied by
    255 and rounded it gives back the integer its group of two digits
    stands for. *)
Theorem color_parser_round_trip color :
  length color = 6%nat →
  Forall (λ c, is_Some (hex_digit c)) color →
  ∃ r g b vr vg vb,
    background_rgb color = (r, g, b)
    ∧ rgb16 color = (vr, vg, vb)
    ∧ group_value color 0 = Some vr
    ∧ group_value color 1 = Some vg
    ∧ group_value color 2 = Some vb
    ∧ in_unit_interval r = true
    ∧ in_unit_interval g = true
    ∧ in_unit_interval b = true
    ∧ round_double (PrimFloat.mul r 255) = Some vr
    ∧ round_double (PrimFloat.mul g 255) = Some vg
    ∧ round_double (PrimFloat.mul b 255) = Some vb.
Proof.
  intros Hlen Hhex.
  destruct color as [|c0 [|c1 [|c2 [|c3 [|c4 [|c5 [|]]]]]]]; try discriminate Hlen.
  repeat match goal with
         | H : Forall _ (_ :: _) |- _ => apply Forall_cons in H as [[? ?] H]
         end.
  match goal with
  | H0 : hex_digit c0 = Some ?d0, H1 : hex_digit c1 = Some ?d1,
    H2 : hex_digit c2 = Some ?d2, H3 : hex_digit c3 = Some ?d3,
    H4 : hex_digit c4 = Some ?d4, H5 : hex_digit c5 = Some ?d5 |- _ =>
      pose proof (hex_digit_char _ _ H0) as (? & _);
      pose proof (hex_digit_char _ _ H1) as (? & _);
      pose proof (hex_digit_char _ _ H2) as (? & _);
      pose proof (hex_digit_char _ _ H3) as (? & _);
      pose proof (hex_digit_char _ _ H4) as (? & _);
      pose proof (hex_digit_char _ _ H5) as (? & _);
      exists (fraction (16 * d0 + d1)), (fraction (16 * d2 + d3)), (fraction (16 * d4 + d5)),
             (16 * d0 + d1), (16 * d2 + d3), (16 * d4 + d5);
      assert (Hrgb : rgb16 [c0; c1; c2; c3; c4; c5]
                     = (16 * d0 + d1, 16 * d2 + d3, 16 * d4 + d5));
      [ unfold rgb16, strgroups, char_at; simpl;
        rewrite (strtol16_two_digits _ _ _ _ H0 H1),
                (strtol16_two_digits _ _ _ _ H2 H3),
                (strtol16_two_digits _ _ _ _ H4 H5);
        unfold to_uint32; rewrite !Z.mod_small by lia; done
      | pose proof (fraction_round_trips_byte (16 * d0 + d1) ltac:(lia)) as Hr;
        pose proof (fraction_round_trips_byte (16 * d2 + d3) ltac:(lia)) as Hg;
        pose proof (fraction_round_trips_byte (16 * d4 + d5) ltac:(lia)) as Hb;
        unfold fraction_round_trips in Hr, Hg, Hb;
        apply andb_prop in Hr as [? ?%bool_decide_eq_true];
        apply andb_prop in Hg as [? ?%bool_decide_eq_true];
        apply andb_prop in Hb as [? ?%bool_decide_eq_true];
        unfold background_rgb; rewrite Hrgb;
        unfold group_value; simpl; rewrite H0, H1, H2, H3, H4, H5; simpl;
        repeat split; done ]
  end.
Qed.

Lemma color_parser_round_trip_witness :
  rgb16 [x66; x66; x30; x30; x41; x62] = (255, 0, 171)
  ∧ (let '(r, g, b) := background_rgb [x66; x66; x30; x30; x41; x62] in
     round_double (PrimFloat.mul b 255)) = Some 171.
Proof.
  destruct (color_parser_round_trip [x66; x66; x30; x30; x41; x62])
    as (r & g & b & vr & vg & vb & Hbg & Hrgb & _ & _ & Hvb & _ & _ & _ & _ & _ & Hround).
  - reflexivity.
  - repeat (constructor; [by eexists|]). constructor.
  - split; [reflexivity|]. rewrite Hbg, Hround. f_equal.
    by injection Hvb as <-.
Defined.

End ColourParser.

(** ** The frame and the cached pixmap *)

Section PixmapCache.

Context `{B : Backend}.

Implicit Types (st : state) (X : xserver) (p bg : xcb_pixmap_t) (pm : pixmap)
  (sf : xcb_surface) (res : Z * Z).

Lemma find_pixmap_draw X sf w h g p :
  find_pixmap (draw X sf w h g) p
  = if decide (p = sf_pixmap sf) then repaint sf w h g <$> find_pixmap X p
    else find_pixmap X p.
Proof.
  unfold draw. destruct (sf_pixmap sf) as [|i] eqn:Hsf, p as [|j]; simpl;
    repeat case_decide; try done.
  - injection H as ->. apply lookup_alter_eq.
  - apply lookup_alter_ne. congruence.
Qed.

Lemma draw_keeps_ids X sf w h g :
  next_xid (draw X sf w h g) = next_xid X
  ∧ win_back_pixmap (draw X sf w h g) = win_back_pixmap X
  ∧ win_cleared (draw X sf w h g) = win_cleared X.
Proof. unfold draw. by destruct (sf_pixmap sf). Qed.

Lemma draw_image_frame st X bg res :
  let s := set_vistype (Some (visual_of st)) st in
  ∃ o, draw_indicator junk s
       = Some (if overlay_drawn s then remember_input s else s, o)
       ∧ draw_image st X bg res
         = Some (if overlay_drawn s then remember_input s else s,
                 frame_drawn (ext st) X (mkSurface bg (visual_of st) res.1 res.2) o res).
Proof.
  intros s. destruct (draw_indicator_state junk s) as [o Ho].
  exists o. split; [done|].
  unfold draw_image. fold (visual_of st). fold s. rewrite Ho. done.
Qed.

(** A frame leaves every other pixmap alone, and on its own pixmap it
    keeps the size and sets exactly the pixels it covers. *)
Lemma find_pixmap_frame_other e X sf o res p :
  p ≠ sf_pixmap sf → find_pixmap (frame_drawn e X sf o res) p = find_pixmap X p.
Proof.
  intros Hp. unfold frame_drawn, fill_surface, fill_tiled, paint_image, fill_rgb.
  rewrite find_pixmap_draw. case_decide; [done|].
  destruct (img e) as [i|]; [destruct (negb (tile e))|];
    repeat (rewrite find_pixmap_draw; case_decide; [done|]); done.
Qed.

Lemma find_pixmap_frame e X bg vis o res :
  let sf := mkSurface bg vis res.1 res.2 in
  match find_pixmap X bg with
  | None => find_pixmap (frame_drawn e X sf o res) bg = None
  | Some pm =>
      ∃ pm', find_pixmap (frame_drawn e X sf o res) bg = Some pm'
             ∧ pm_width pm' = pm_width pm ∧ pm_height pm' = pm_height pm
             ∧ ∀ x y, pm_data pm' x y
                      = if touched sf res.1 res.2 pm x y
                        then frame_pixel e vis o x y
                        else pm_data pm x y
  end.
Proof.
  intros sf. unfold frame_drawn, fill_surface, fill_tiled, paint_image, fill_rgb.
  destruct (find_pixmap X bg) as [pm|] eqn:Hpm.
  - destruct (img e) as [i|] eqn:Himg; [destruct (negb (tile e)) eqn:Htile|];
      repeat (rewrite find_pixmap_draw; case_decide; [|done]);
      rewrite Hpm; simpl; (eexists; split; [done|]); simpl;
      (split; [done|]); (split; [done|]); intros x y;
      unfold frame_pixel, touched; simpl; rewrite Himg, ?Htile;
      destruct (in_rect res.1 res.2 x y), (in_rect (pm_width pm) (pm_height pm) x y);
      simpl; done.
  - destruct (img e) as [i|]; [destruct (negb (tile e))|];
      repeat (rewrite find_pixmap_draw; case_decide; [|done]);
      by rewrite Hpm.
Qed.

Lemma same_pixels_refl (a : option pixmap) : same_pixels a a.
Proof. by destruct a. Qed.

Lemma find_pixmap_published X p q w h :
  find_pixmap (xcb_clear_area (xcb_change_back_pixmap X p) w h) q = find_pixmap X q.
Proof. by destruct q. Qed.

(** A second render right after the first finds the state it left and
    draws the overlay it drew. *)
Lemma draw_indicator_again f st st' o :
  draw_indicator f st = Some (st', o) → draw_indicator f st' = Some (st', o).
Proof.
  destruct (overlay_drawn st) eqn:Hdrawn.
  - intros Hdraw.
    destruct (draw_indicator_state f st) as [o' Ho']. rewrite Hdrawn, Hdraw in Ho'.
    injection Ho' as -> _.
    rewrite <- Hdraw. unfold draw_indicator.
    by rewrite overlay_drawn_remember, Hdrawn, remember_input_idemp.
  - rewrite draw_indicator_skipped by done. intros [= <- <-].
    by apply draw_indicator_skipped.
Qed.

Lemma set_vistype_same st v : vistype st = Some v → set_vistype (Some v) st = st.
Proof. destruct st. simpl. by intros ->. Qed.

(** [redraw_screen] when the pixmap is there. *)
Lemma redraw_screen_allocated st X :
  bg_pixmap st ≠ XCB_NONE →
  ∃ st1 o,
    draw_indicator junk (set_vistype (Some (visual_of st)) st) = Some (st1, o)
    ∧ ext st1 = ext st ∧ bg_pixmap st1 = bg_pixmap st
    ∧ vistype st1 = Some (visual_of st)
    ∧ redraw_screen st X
      = Some (st1,
              xcb_clear_area
                (xcb_change_back_pixmap
                   (frame_drawn (ext st) X
                      (mkSurface (bg_pixmap st) (visual_of st)
                                 (last_resolution (ext st)).1 (last_resolution (ext st)).2)
                      o (last_resolution (ext st)))
                   (bg_pixmap st))
                (last_resolution (ext st)).1 (last_resolution (ext st)).2).
Proof.
  intros Hbg.
  destruct (draw_image_frame st X (bg_pixmap st) (last_resolution (ext st))) as (o & Ho & Hdraw).
  set (s := set_vistype (Some (visual_of st)) st) in *.
  set (st1 := if overlay_drawn s then remember_input s else s) in *.
  assert (Hfields : ext st1 = ext st ∧ bg_pixmap st1 = bg_pixmap st
                    ∧ vistype st1 = Some (visual_of st)).
  { unfold st1. destruct (overlay_drawn s); [|done].
    destruct (remember_input_fields s) as (-> & _ & _ & -> & ->). done. }
  destruct Hfields as (Hext & Hbg1 & Hvis).
  exists st1, o. repeat split; try done.
  unfold redraw_screen. rewrite bool_decide_eq_false_2 by done.
  rewrite Hdraw. simpl. by rewrite Hbg1.
Qed.

(** [redraw_screen] when the pixmap is missing: the pixmap is created,
    and the rest is as if it had been there. *)
Lemma redraw_screen_empty st X :
  bg_pixmap st = XCB_NONE →
  redraw_screen st X = redraw_screen (ensure_bg_pixmap st X).1 (ensure_bg_pixmap st X).2.
Proof.
  intros Hbg. unfold ensure_bg_pixmap, redraw_screen.
  rewrite (bool_decide_eq_true_2 _ Hbg). simpl. done.
Qed.

Lemma next_xid_frame e X sf o res : next_xid (frame_drawn e X sf o res) = next_xid X.
Proof.
  unfold frame_drawn, fill_surface, fill_tiled, paint_image, fill_rgb.
  destruct (img e) as [i|]; [destruct (negb (tile e))|];
    repeat (etrans; [apply draw_keeps_ids|]); done.
Qed.

Lemma pm_size_frame e X bg vis o res p :
  pm_size <$> find_pixmap (frame_drawn e X (mkSurface bg vis res.1 res.2) o res) p
  = pm_size <$> find_pixmap X p.
Proof.
  destruct (decide (p = bg)) as [->|Hp].
  - pose proof (find_pixmap_frame e X bg vis o res) as Hframe. simpl in Hframe.
    destruct (find_pixmap X bg) as [pm|].
    + destruct Hframe as (pm' & -> & Hw & Hh & _). simpl. unfold pm_size. by rewrite Hw, Hh.
    + by rewrite Hframe.
  - by rewrite find_pixmap_frame_other.
Qed.

(** C5: the cached pixmap has two states. With the handle at [XCB_NONE],
    [redraw_screen] allocates a pixmap of the size of the current
    resolution and keeps its handle; with a handle already there it keeps
    the handle and allocates nothing, whatever the size of that pixmap.
    [free_bg_pixmap] releases the pixmap and sets the handle to
    [XCB_NONE]; with the handle already [XCB_NONE] it changes nothing. *)
Theorem pixmap_cache_state_machine st X :
  (bg_pixmap st = XCB_NONE →
     ∃ st' X' pm,
       redraw_screen st X = Some (st', X')
       ∧ bg_pixmap st' = Npos (next_xid X)
       ∧ bg_pixmap st' ≠ XCB_NONE
       ∧ next_xid X' = Pos.succ (next_xid X)
       ∧ find_pixmap X' (bg_pixmap st') = Some pm
       ∧ pm_size pm = last_resolution (ext st))
  ∧ (bg_pixmap st ≠ XCB_NONE →
       ∃ st' X',
         redraw_screen st X = Some (st', X')
         ∧ bg_pixmap st' = bg_pixmap st
         ∧ next_xid X' = next_xid X
         ∧ ∀ p, pm_size <$> find_pixmap X' p = pm_size <$> find_pixmap X p)
  ∧ (∃ st' X',
       free_bg_pixmap st X = (st', X')
       ∧ bg_pixmap st' = XCB_NONE
       ∧ find_pixmap X' (bg_pixmap st) = None
       ∧ ∀ p, p ≠ bg_pixmap st → find_pixmap X' p = find_pixmap X p)
  ∧ (bg_pixmap st = XCB_NONE → free_bg_pixmap st X = (st, X)).
Proof.
  assert (Hkeep : ∀ s Y, bg_pixmap s ≠ XCB_NONE →
    ∃ s' Y', redraw_screen s Y = Some (s', Y')
             ∧ bg_pixmap s' = bg_pixmap s
             ∧ next_xid Y' = next_xid Y
             ∧ ∀ p, pm_size <$> find_pixmap Y' p = pm_size <$> find_pixmap Y p).
  { intros s Y Hbg.
    destruct (redraw_screen_allocated s Y Hbg) as (s1 & o & _ & _ & Hbg1 & _ & ->).
    do 2 eexists. split; [done|]. split; [done|]. split.
    - simpl. apply next_xid_frame.
    - intros p. rewrite find_pixmap_published. apply pm_size_frame. }
  split; [|split; [by apply Hkeep|split]].
  - intros Hbg. rewrite redraw_screen_empty by done.
    unfold ensure_bg_pixmap. rewrite (bool_decide_eq_true_2 _ Hbg). simpl.
    set (st0 := set_bg_pixmap (N.pos (next_xid X)) st).
    set (X0 := mkServer _ _ _ _).
    destruct (Hkeep st0 X0) as (st' & X' & -> & Hbg' & Hnext & Hsize); [done|].
    specialize (Hsize (Npos (next_xid X))).
    assert (Hnew : find_pixmap X0 (Npos (next_xid X))
                   = Some (mkPixmap (last_resolution (ext st)).1 (last_resolution (ext st)).2
                             (λ _ _, solid (get_root_visual_type (screen (ext st)))
                                           (background_rgb (color (ext st)))))).
    { simpl. apply lookup_insert_eq. }
    rewrite Hnew in Hsize.
    destruct (find_pixmap X' (Npos (next_xid X))) as [pm|] eqn:Hpm;
      simpl in Hsize; [|discriminate Hsize].
    exists st', X', pm. rewrite Hbg'. simpl. repeat split; try done.
    apply (inj Some) in Hsize. rewrite Hsize. unfold pm_size. simpl.
    by destruct (last_resolution (ext st)).
  - do 2 eexists. split; [done|]. simpl. split; [done|]. split.
    + destruct (bg_pixmap st); [done|]. simpl. apply lookup_delete_eq.
    + intros p Hp. destruct (bg_pixmap st) as [|i]; [done|].
      destruct p as [|j]; [done|]. simpl. apply lookup_delete_ne. congruence.
  - intros Hbg. unfold free_bg_pixmap. rewrite Hbg. simpl.
    destruct st, X. simpl in *. by rewrite Hbg.
Qed.

(** C7: [redraw_screen] twice in a row, nothing changed in between: the
    second call leaves the state as the first left it, and every pixmap,
    the backing pixmap among them, with the same size and the same pixel
    at every position. *)
Theorem redraw_screen_idempotent st X :
  ∃ st1 X1 X2,
    redraw_screen st X = Some (st1, X1)
    ∧ redraw_screen st1 X1 = Some (st1, X2)
    ∧ bg_pixmap st1 ≠ XCB_NONE
    ∧ same_pixels (find_pixmap X2 (bg_pixmap st1)) (find_pixmap X1 (bg_pixmap st1))
    ∧ ∀ p, same_pixels (find_pixmap X2 p) (find_pixmap X1 p).
Proof.
  assert (Hallocated : ∀ s Y, bg_pixmap s ≠ XCB_NONE →
    ∃ s1 Y1 Y2,
      redraw_screen s Y = Some (s1, Y1)
      ∧ redraw_screen s1 Y1 = Some (s1, Y2)
      ∧ bg_pixmap s1 ≠ XCB_NONE
      ∧ ∀ p, same_pixels (find_pixmap Y2 p) (find_pixmap Y1 p)).
  { intros s Y Hbg.
    destruct (redraw_screen_allocated s Y Hbg) as (s1 & o & Ho & Hext & Hbg1 & Hvis & Hfirst).
    assert (Hbg1' : bg_pixmap s1 ≠ XCB_NONE) by congruence.
    destruct (redraw_screen_allocated s1 (xcb_clear_area
                (xcb_change_back_pixmap
                   (frame_drawn (ext s) Y
                      (mkSurface (bg_pixmap s) (visual_of s)
                                 (last_resolution (ext s)).1 (last_resolution (ext s)).2)
                      o (last_resolution (ext s)))
                   (bg_pixmap s))
                (last_resolution (ext s)).1 (last_resolution (ext s)).2) Hbg1')
      as (s2 & o2 & Ho2 & _ & _ & _ & Hsecond).
    assert (Hvis1 : visual_of s1 = visual_of s) by (unfold visual_of at 1; by rewrite Hvis).
    rewrite Hvis1, (set_vistype_same s1 _ Hvis) in Ho2.
    rewrite (draw_indicator_again _ _ _ _ Ho) in Ho2. injection Ho2 as <- <-.
    rewrite Hvis1, Hext, Hbg1 in Hsecond.
    do 3 eexists. split; [exact Hfirst|]. split; [exact Hsecond|]. split; [done|].
    intros p. rewrite !find_pixmap_published.
    set (Y1 := xcb_clear_area _ _ _).
    destruct (decide (p = bg_pixmap s)) as [->|Hp];
      [|rewrite find_pixmap_frame_other by done; apply same_pixels_refl].
    pose proof (find_pixmap_frame (ext s) Y (bg_pixmap s) (visual_of s) o
                  (last_resolution (ext s))) as H1.
    pose proof (find_pixmap_frame (ext s) Y1 (bg_pixmap s) (visual_of s) o
                  (last_resolution (ext s))) as H2.
    simpl in H1, H2. unfold Y1 in H2 at 1. rewrite find_pixmap_published in H2.
    destruct (find_pixmap Y (bg_pixmap s)) as [pm|].
    - destruct H1 as (pm1 & Hpm1 & Hw1 & Hh1 & Hdata1). rewrite Hpm1 in H2 |- *.
      destruct H2 as (pm2 & -> & Hw2 & Hh2 & Hdata2). simpl.
      split; [done|]. split; [done|]. intros x y.
      rewrite Hdata2, Hdata1. unfold touched. simpl. rewrite Hw1, Hh1.
      by destruct (_ && _).
    - rewrite H1 in H2 |- *. by rewrite H2. }
  assert (Hany : ∃ s Y, redraw_screen st X = redraw_screen s Y ∧ bg_pixmap s ≠ XCB_NONE).
  { destruct (decide (bg_pixmap st = XCB_NONE)) as [Hbg|Hbg].
    - exists (ensure_bg_pixmap st X).1, (ensure_bg_pixmap st X).2.
      split; [by apply redraw_screen_empty|].
      unfold ensure_bg_pixmap. by rewrite (bool_decide_eq_true_2 _ Hbg).
    - by exists st, X. }
  destruct Hany as (s & Y & -> & Hbg).
  destruct (Hallocated s Y Hbg) as (s1 & Y1 & Y2 & H1 & H2 & Hbg1 & Hsame).
  exists s1, Y1, Y2. repeat split; try done.
Qed.

End PixmapCache.

(** The renderer run on the recording backend. *)

Example first_redraw_allocates :
  backing (redraw_screen (B := recording_backend) typing_state no_pixmaps) 960 540
  = Some (1%N, (1920, 1080), [Txt 96 (dot ++ dot) white; Fill 0%nat (1, 1, 1)%float]).
Proof. vm_compute. reflexivity. Qed.

Example second_redraw_reuses :
  backing ('(st, X) ← redraw_screen (B := recording_backend) typing_state no_pixmaps;
           redraw_screen st X) 960 540
  = Some (1%N, (1920, 1080), [Txt 96 (dot ++ dot) white; Fill 0%nat (1, 1, 1)%float]).
Proof. vm_compute. reflexivity. Qed.

Example free_bg_pixmap_releases :
  ('(st, X) ← redraw_screen (B := recording_backend) typing_state no_pixmaps;
   let '(st', X') := free_bg_pixmap st X in
   Some (bg_pixmap st', pm_size <$> find_pixmap X' 1%N, next_xid X'))
  = Some (XCB_NONE, None, 2%positive).
Proof. vm_compute. reflexivity. Qed.

(** The resolution changes from 800 by 600 to 1024 by 768. Without
    [free_bg_pixmap] the next redraw keeps the pixmap of the old size;
    after [free_bg_pixmap] it allocates one of the new size. *)
Example resolution_change_without_invalidation :
  backing ('(st, X) ← redraw_screen (B := recording_backend)
                        (set_ext (set_last_resolution (800, 600) (ext typing_state)) typing_state)
                        no_pixmaps;
           redraw_screen (set_ext (set_last_resolution (1024, 768) (ext st)) st) X) 512 384
  = Some (1%N, (800, 600), [Txt 96 (dot ++ dot) white; Fill 0%nat (1, 1, 1)%float]).
Proof. vm_compute. reflexivity. Qed.

Example resolution_change_with_invalidation :
  backing ('(st, X) ← redraw_screen (B := recording_backend)
                        (set_ext (set_last_resolution (800, 600) (ext typing_state)) typing_state)
                        no_pixmaps;
           let '(st, X) := free_bg_pixmap st X in
           redraw_screen (set_ext (set_last_resolution (1024, 768) (ext st)) st) X) 512 384
  = Some (2%N, (1024, 768), [Txt 96 (dot ++ dot) white; Fill 0%nat (1, 1, 1)%float]).
Proof. vm_compute. reflexivity. Qed.

(** * Further properties of the code *)

(** ** [string_repeat] at the end of the array *)

Section BuilderBounds.

Implicit Types (dest str m bs : list byte) (n : Z).

Lemma write_bytes_overflow bs : ∀ m (off : nat),
  bs ≠ [] → (length m < off + length bs)%nat → write_bytes m (Z.of_nat off) bs = None.
Proof.
  induction bs as [|b bs IH]; intros m off Hne Hlen; [done|]. simpl in *.
  destruct (decide (off < length m)%nat) as [Hin|Hout].
  - rewrite store_nat by done. simpl.
    replace (Z.of_nat off + 1) with (Z.of_nat (S off)) by lia.
    apply IH; [|rewrite length_insert; lia].
    intros ->. simpl in Hlen. lia.
  - unfold store.
    destruct (Z.ltb_spec (Z.of_nat off) (Z.of_nat (length m))); [lia|].
    by rewrite andb_false_r.
Qed.

(** X1: [string_repeat] checks no bound. For a positive count it stays
    inside the destination exactly when the destination has room for the
    copies and the terminator; one byte less and a store falls outside. *)
Theorem string_repeat_room dest str n :
  0 < n →
  Z.of_nat (length dest) ≤ INT_MAX →
  64 * strlen str ≤ INT_MAX →
  is_Some (string_repeat dest str n)
  ↔ clamp n * strlen str + 1 ≤ Z.of_nat (length dest).
Proof.
  intros Hn Hdest Hstr. split.
  - intros Hsome.
    destruct (Z.le_gt_cases (clamp n * strlen str + 1) (Z.of_nat (length dest)))
      as [|Hshort]; [done|].
    exfalso. revert Hsome. unfold string_repeat, strlen in *.
    pose proof (clamp_range n) as Hrange.
    assert (Hc : clamp n = if n >=? 64 then 64 else n).
    { unfold clamp. destruct (Z.leb_spec n 0); [lia|done]. }
    destruct (Z.leb_spec n 0) as [|_]; [lia|]. rewrite <- Hc.
    assert (1 ≤ clamp n).
    { rewrite Hc. destruct (Z.geb_spec n 64); lia. }
    set (c := clamp n) in *. set (l := length (cstr str)) in *.
    assert (Hj : ∃ j : nat, c = Z.of_nat j + 1) by (exists (Z.to_nat (c - 1)); lia).
    destruct Hj as [j Hj].
    rewrite to_int_small by (unfold INT_MIN, INT_MAX in *; lia).
    unfold int_mul.
    destruct (Z.leb_spec INT_MIN ((c - 1) * Z.of_nat l));
      [|unfold INT_MIN, INT_MAX in *; nia].
    destruct (Z.leb_spec ((c - 1) * Z.of_nat l) INT_MAX);
      [|unfold INT_MIN, INT_MAX in *; nia].
    simpl.
    replace ((c - 1) * Z.of_nat l) with (Z.of_nat (j * l)) by nia.
    unfold strcpy. rewrite write_bytes_overflow.
    + simpl. by intros [? ?].
    + by destruct (cstr str).
    + rewrite length_app. simpl. fold l. nia.
  - intros Hroom. by rewrite string_repeat_positive.
Qed.

Lemma string_repeat_room_witness :
  is_Some (string_repeat [x41; x41; x41; x41; x41; x41; x41] dot 2)
  ∧ ¬ is_Some (string_repeat [x41; x41; x41; x41; x41; x41] dot 2).
Proof.
  split.
  - apply (string_repeat_room [x41; x41; x41; x41; x41; x41; x41] dot 2); by vm_compute.
  - intros Hsome.
    apply (string_repeat_room [x41; x41; x41; x41; x41; x41] dot 2) in Hsome;
      [by vm_compute in Hsome|by vm_compute..].
Defined.

End BuilderBounds.

(** ** The overlay for every state *)

Section Overlay.

Implicit Types (f : nat → byte) (st : state) (n : Z) (xr : list Rect) (res : Z * Z).

Lemma glyphs_copies k : 0 ≤ k → glyphs (copies k dot) = k.
Proof.
  intros Hk. unfold glyphs. rewrite (length_copies k dot Hk).
  change (Z.of_nat (length dot)) with 3. by rewrite Z.div_mul.
Qed.

(** The text shown when the overlay is drawn: the text built, or nothing
    under the override of the default branch. *)
Lemma overlay_text_cases f st text text' c :
  build_text f st = Some text →
  select_color st text = Some (text', c) →
  cstr text' = cstr text ∨ cstr text' = [].
Proof.
  intros Htext Hc.
  destruct (build_text_total f st) as (t & Ht & Hlen).
  rewrite Htext in Ht. injection Ht as <-.
  unfold select_color in Hc.
  destruct (auth_state st); try (destruct (_ <? _));
    try (injection Hc as <- _; by left).
  destruct (bool_decide _); simpl in Hc.
  - rewrite strcpy_empty in Hc by lia. simpl in Hc. injection Hc as <- _. by right.
  - injection Hc as <- _. by left.
Qed.

(** X2: whatever the state, a render shows a whole number of dots, at
    most 64 of them: the text handed to [cairo_show_text] is [k] copies
    of the three bytes of the dot with [0 <= k <= 64], or no overlay is
    drawn at all. *)
Theorem overlay_text_is_at_most_64_dots f st :
  ∃ st' o k,
    draw_indicator f st = Some (st', o)
    ∧ 0 ≤ k ≤ 64
    ∧ drawn_text o = copies k dot
    ∧ glyphs (drawn_text o) = k
    ∧ length (drawn_text o) = (3 * Z.to_nat k)%nat.
Proof.
  assert (Hlen : ∀ k, 0 ≤ k → length (copies k dot) = (3 * Z.to_nat k)%nat).
  { intros k Hk. pose proof (length_copies k dot Hk) as H. simpl in H. lia. }
  destruct (overlay_drawn st) eqn:Hdrawn.
  - destruct (draw_indicator_drawn f st Hdrawn)
      as (text & text' & c & pl & d & Htext & Hc & _ & ->).
    pose proof (build_text_cstr f (remember_input st)) as Hcstr.
    rewrite Htext in Hcstr. simpl in Hcstr. apply (inj Some) in Hcstr.
    destruct (overlay_text_cases f _ _ _ _ Htext Hc) as [Hsame|Hempty].
    + do 2 eexists. eexists (clamp _). split; [done|]. simpl. rewrite Hsame, Hcstr.
      split; [apply clamp_range|]. split; [done|].
      split; [apply glyphs_copies, clamp_range|apply Hlen, clamp_range].
    + do 2 eexists. exists 0. split; [done|]. simpl. by rewrite Hempty.
  - rewrite draw_indicator_skipped by done. do 2 eexists. by exists 0.
Qed.

(** X3: the colour of the overlay. It is red exactly after a failure that
    no key press has followed ("lock failed", or "wrong password" with
    the unlock state still at its start), blue-gray exactly while
    verifying or locking, and white in every other case. *)
Theorem overlay_colour f st :
  overlay_drawn st = true →
  ∃ i,
    draw_indicator f st = Some (remember_input st, Some i)
    ∧ (ind_rgb i = red
       ↔ auth_state st = STATE_I3LOCK_LOCK_FAILED
         ∨ (auth_state st = STATE_AUTH_WRONG ∧ unlock_state st = STATE_STARTED))
    ∧ (ind_rgb i = blue_gray
       ↔ auth_state st = STATE_AUTH_VERIFY ∨ auth_state st = STATE_AUTH_LOCK)
    ∧ (ind_rgb i = white
       ↔ auth_state st = STATE_AUTH_IDLE
         ∨ (auth_state st = STATE_AUTH_WRONG ∧ unlock_state st ≠ STATE_STARTED)).
Proof.
  intros Hdrawn.
  destruct (draw_indicator_drawn f st Hdrawn)
    as (text & text' & c & pl & d & Htext & Hc & _ & ->).
  destruct (remember_input_fields st) as (_ & Hauth & Hunlock & _).
  destruct (build_text_total f (remember_input st)) as (t & Ht & Hlen).
  rewrite Htext in Ht. injection Ht as <-.
  eexists. split; [done|]. simpl.
  unfold select_color in Hc. rewrite Hauth, Hunlock in Hc.
  destruct (auth_state st), (unlock_state st); simpl in Hc;
    try rewrite strcpy_empty in Hc by lia; simpl in Hc;
    injection Hc as _ <-; repeat split; intros; try done;
    repeat match goal with
           | H : _ ∨ _ |- _ => destruct H
           | H : _ ∧ _ |- _ => destruct H
           end; try done; eauto.
Qed.

Lemma overlay_colour_witness :
  (λ r : state * option indicator, ind_rgb <$> r.2)
    <$> draw_indicator (λ _, x00)
          (mkState startup_externs STATE_STARTED STATE_AUTH_WRONG 3 None XCB_NONE)
  = Some (Some red).
Proof.
  destruct (overlay_colour (λ _, x00)
              (mkState startup_externs STATE_STARTED STATE_AUTH_WRONG 3 None XCB_NONE))
    as (i & -> & Hred & _); [reflexivity|].
  simpl. do 2 f_equal. apply Hred. by right.
Defined.


(** X5: the dots outlast the clearing of the buffer. After a render that
    drew the overlay with [n > 0] characters typed, a render in the state
    "wrong password" or "lock failed" with the buffer emptied again shows
    the [n] dots (64 at most) of the failed attempt. *)
Theorem dots_survive_buffer_clearing f st n a :
  overlay_drawn st = true →
  0 < n →
  a = STATE_AUTH_WRONG ∨ a = STATE_I3LOCK_LOCK_FAILED →
  ∃ st1 o1 st2 i,
    draw_indicator f (set_ext (set_input_position n (ext st)) st) = Some (st1, o1)
    ∧ draw_indicator f (set_auth_state a (set_ext (set_input_position 0 (ext st1)) st1))
      = Some (st2, Some i)
    ∧ ind_text i = copies (clamp n) dot
    ∧ last_input_position st2 = n.
Proof.
  intros Hdrawn Hn Ha.
  destruct (render_with_input f st n Hdrawn) as (st1 & o1 & Hfirst & Hdrawn1 & Hlast1).
  destruct (Z.ltb_spec 0 n); [|lia].
  set (s2 := set_auth_state a (set_ext (set_input_position 0 (ext st1)) st1)).
  assert (Hdrawn2 : overlay_drawn s2 = true).
  { unfold overlay_drawn in *. simpl.
    apply andb_prop in Hdrawn1 as [-> _]. simpl.
    destruct Ha as [-> | ->]; simpl; apply orb_true_r. }
  assert (Hrem : remember_input s2 = s2) by done.
  destruct (draw_indicator_drawn f s2 Hdrawn2)
    as (text & text' & c & pl & d & Htext & Hc & _ & Hsecond).
  rewrite Hrem in *.
  pose proof (build_text_cstr f s2) as Hcstr.
  rewrite Htext in Hcstr. simpl in Hcstr. apply (inj Some) in Hcstr.
  assert (Hsame : text' = text).
  { unfold select_color in Hc. simpl in Hc.
    destruct Ha as [-> | ->]; simpl in Hc; [destruct (_ <? _)|]; by injection Hc. }
  exists st1, o1, s2, (mkIndicator (cstr text') c pl).
  split; [done|]. split; [done|]. simpl. split; [|done].
  rewrite Hsame, Hcstr, Hlast1. by destruct Ha as [-> | ->].
Qed.

Lemma dots_survive_buffer_clearing_witness :
  ∃ st1 o1 st2 i,
    draw_indicator (λ _, x00) (set_ext (set_input_position 5 (ext typing_state)) typing_state)
    = Some (st1, o1)
    ∧ draw_indicator (λ _, x00)
        (set_auth_state STATE_AUTH_WRONG (set_ext (set_input_position 0 (ext st1)) st1))
      = Some (st2, Some i)
    ∧ ind_text i = copies (clamp 5) dot
    ∧ last_input_position st2 = 5.
Proof.
  apply (dots_survive_buffer_clearing (λ _, x00) typing_state 5 STATE_AUTH_WRONG).
  - reflexivity.
  - lia.
  - by left.
Defined.

End Overlay.

(** ** What a frame changes and what it leaves *)

Section Frames.

Context `{B : Backend}.

Implicit Types (st : state) (X Y : xserver) (p bg : xcb_pixmap_t) (pm : pixmap)
  (res : Z * Z).

Lemma window_frame e X sf o res :
  win_back_pixmap (frame_drawn e X sf o res) = win_back_pixmap X
  ∧ win_cleared (frame_drawn e X sf o res) = win_cleared X.
Proof.
  unfold frame_drawn, fill_surface, fill_tiled, paint_image, fill_rgb.
  destruct (img e) as [i|]; [destruct (negb (tile e))|];
    split; repeat (etrans; [apply draw_keeps_ids|]); done.
Qed.

Lemma rendered_state_fields (s : state) :
  let s' := if overlay_drawn s then remember_input s else s in
  ext s' = ext s ∧ auth_state s' = auth_state s ∧ unlock_state s' = unlock_state s
  ∧ vistype s' = vistype s ∧ bg_pixmap s' = bg_pixmap s.
Proof. simpl. destruct (overlay_drawn s); [apply remember_input_fields|done]. Qed.

(** X6: [draw_image] draws and does nothing else. It returns for every
    state; of the variables it changes only [last_input_position] and
    [vistype], the latter only when it was not set; on the server it
    touches no pixmap but the one it is given, creates and frees none,
    changes no size, and leaves the window alone. *)
Theorem draw_image_touches_only_its_pixmap st X bg res :
  ∃ st' X',
    draw_image st X bg res = Some (st', X')
    ∧ ext st' = ext st
    ∧ unlock_state st' = unlock_state st
    ∧ auth_state st' = auth_state st
    ∧ bg_pixmap st' = bg_pixmap st
    ∧ (∀ v, vistype st = Some v → vistype st' = Some v)
    ∧ (vistype st = None → vistype st' = Some (get_root_visual_type (screen (ext st))))
    ∧ next_xid X' = next_xid X
    ∧ win_back_pixmap X' = win_back_pixmap X
    ∧ win_cleared X' = win_cleared X
    ∧ (∀ p, p ≠ bg → find_pixmap X' p = find_pixmap X p)
    ∧ (∀ p, pm_size <$> find_pixmap X' p = pm_size <$> find_pixmap X p).
Proof.
  destruct (draw_image_frame st X bg res) as (o & _ & ->).
  destruct (rendered_state_fields (set_vistype (Some (visual_of st)) st))
    as (Hext & Hauth & Hunlock & Hvis & Hbg).
  do 2 eexists. split; [done|].
  split; [by rewrite Hext|]. split; [by rewrite Hunlock|]. split; [by rewrite Hauth|].
  split; [by rewrite Hbg|].
  split; [intros v Hv; rewrite Hvis; simpl; unfold visual_of; by rewrite Hv|].
  split; [intros Hv; rewrite Hvis; simpl; unfold visual_of; by rewrite Hv|].
  split; [apply next_xid_frame|].
  split; [apply window_frame|]. split; [apply window_frame|].
  split; [intros p Hp; by apply find_pixmap_frame_other|].
  intros p. apply pm_size_frame.
Qed.


End Frames.


(** ** The cached pixmap over the life of the program *)

Section Cache.

Context `{B : Backend}.

Implicit Types (st : state) (X : xserver) (p : xcb_pixmap_t) (ops : list operation).

(** The server after [xcb_change_window_attributes] and [xcb_clear_area]. *)
Lemma redraw_screen_result st X :
  ∃ st' o,
    redraw_screen st X
    = Some (st',
            xcb_clear_area
              (xcb_change_back_pixmap
                 (frame_drawn (ext st) (ensure_bg_pixmap st X).2
                    (mkSurface (bg_pixmap (ensure_bg_pixmap st X).1) (visual_of st)
                               (last_resolution (ext st)).1 (last_resolution (ext st)).2)
                    o (last_resolution (ext st)))
                 (bg_pixmap (ensure_bg_pixmap st X).1))
              (last_resolution (ext st)).1 (last_resolution (ext st)).2)
    ∧ draw_indicator junk (set_vistype (Some (visual_of st)) (ensure_bg_pixmap st X).1)
      = Some (st', o)
    ∧ bg_pixmap (ensure_bg_pixmap st X).1 ≠ XCB_NONE
    ∧ ext st' = ext st ∧ unlock_state st' = unlock_state st ∧ auth_state st' = auth_state st
    ∧ bg_pixmap st' = bg_pixmap (ensure_bg_pixmap st X).1
    ∧ vistype st' = Some (visual_of st).
Proof.
  assert (Hens : ext (ensure_bg_pixmap st X).1 = ext st
                 ∧ unlock_state (ensure_bg_pixmap st X).1 = unlock_state st
                 ∧ auth_state (ensure_bg_pixmap st X).1 = auth_state st
                 ∧ visual_of (ensure_bg_pixmap st X).1 = visual_of st
                 ∧ bg_pixmap (ensure_bg_pixmap st X).1 ≠ XCB_NONE
                 ∧ redraw_screen st X
                   = redraw_screen (ensure_bg_pixmap st X).1 (ensure_bg_pixmap st X).2).
  { destruct (decide (bg_pixmap st = XCB_NONE)) as [Hbg|Hbg].
    - rewrite (redraw_screen_empty st X Hbg).
      unfold ensure_bg_pixmap. rewrite (bool_decide_eq_true_2 _ Hbg). done.
    - unfold ensure_bg_pixmap. rewrite (bool_decide_eq_false_2 _ Hbg). done. }
  destruct Hens as (Hext & Hunlock & Hauth & Hvis & Hbg & ->).
  destruct (redraw_screen_allocated _ (ensure_bg_pixmap st X).2 Hbg)
    as (st' & o & Ho & Hext' & Hbg' & Hvis' & ->).
  rewrite Hvis, Hext in *.
  exists st', o. repeat split; try done.
  - pose proof (rendered_state_fields
                  (set_vistype (Some (visual_of st)) (ensure_bg_pixmap st X).1)) as Hf.
    destruct (draw_indicator_state junk
                (set_vistype (Some (visual_of st)) (ensure_bg_pixmap st X).1)) as [o' Ho'].
    rewrite Ho in Ho'. injection Ho' as -> _.
    destruct Hf as (_ & _ & -> & _). by rewrite <- Hunlock.
  - pose proof (rendered_state_fields
                  (set_vistype (Some (visual_of st)) (ensure_bg_pixmap st X).1)) as Hf.
    destruct (draw_indicator_state junk
                (set_vistype (Some (visual_of st)) (ensure_bg_pixmap st X).1)) as [o' Ho'].
    rewrite Ho in Ho'. injection Ho' as -> _.
    destruct Hf as (_ & -> & _). by rewrite <- Hauth.
Qed.


(** X9: [free_bg_pixmap] makes the next [redraw_screen] allocate. After
    it, and whatever resolution the other files have set in between, the
    redraw leaves a pixmap of that resolution under a new handle, and the
    pixmap of the old handle is gone. *)
Theorem free_then_redraw_allocates st X res :
  ∃ st' X' pm,
    redraw_screen (set_ext (set_last_resolution res (ext st)) (free_bg_pixmap st X).1)
                  (free_bg_pixmap st X).2 = Some (st', X')
    ∧ bg_pixmap st' = Npos (next_xid X)
    ∧ find_pixmap X' (bg_pixmap st') = Some pm
    ∧ pm_size pm = res
    ∧ (bg_pixmap st ≠ bg_pixmap st' → find_pixmap X' (bg_pixmap st) = None).
Proof.
  set (s := set_ext (set_last_resolution res (ext st)) (free_bg_pixmap st X).1).
  set (X1 := (free_bg_pixmap st X).2).
  destruct (redraw_screen_result s X1) as (st' & o & -> & _ & _ & _ & _ & _ & Hbg' & _).
  assert (Hnext : next_xid X1 = next_xid X).
  { unfold X1. simpl. by destruct (bg_pixmap st). }
  assert (Hens : ensure_bg_pixmap s X1
                 = (set_bg_pixmap (Npos (next_xid X)) s,
                    (create_bg_pixmap X1 (screen (ext s)) res (color (ext s))).1)).
  { unfold ensure_bg_pixmap. simpl. by rewrite Hnext. }
  rewrite Hens in *. simpl in Hbg'.
  set (X0 := (create_bg_pixmap X1 (screen (ext s)) res (color (ext s))).1).
  assert (Hnew : pm_size <$> find_pixmap X0 (Npos (next_xid X)) = Some res).
  { unfold X0. simpl. rewrite Hnext, lookup_insert_eq. simpl.
    unfold pm_size. simpl. by destruct res. }
  assert (Hold : bg_pixmap st ≠ Npos (next_xid X) → find_pixmap X0 (bg_pixmap st) = None).
  { intros Hne. unfold X0. destruct (bg_pixmap st) as [|i] eqn:Hbg; [done|].
    simpl. rewrite Hnext, lookup_insert_ne by congruence.
    unfold X1. simpl. rewrite Hbg. simpl. apply lookup_delete_eq. }
  pose proof (pm_size_frame (ext s) X0 (Npos (next_xid X)) (visual_of s) o
                (last_resolution (ext s)) (Npos (next_xid X))) as Hsize.
  rewrite Hnew in Hsize.
  destruct (find_pixmap (frame_drawn _ _ _ _ _) (Npos (next_xid X))) as [pm|] eqn:Hpm;
    simpl in Hsize; [|discriminate Hsize].
  do 2 eexists. exists pm. split; [done|]. split; [done|].
  rewrite Hbg', find_pixmap_published.
  split; [exact Hpm|]. split; [by apply (inj Some) in Hsize|].
  intros Hne. rewrite find_pixmap_published.
  rewrite find_pixmap_frame_other by done. by apply Hold.
Qed.

(** X10: [clear_indicator] hides the indicator when the buffer is empty.
    With [input_position] at 0 and no authentication under way it sets
    the unlock state back to its start, whatever it was, and the frame it
    draws is the frame drawn with the indicator switched off;
    [last_input_position] is kept. *)
Theorem clear_indicator_hides_when_empty st X :
  input_position (ext st) = 0 →
  auth_state st = STATE_AUTH_IDLE →
  ∃ st' X',
    clear_indicator st X = Some (st', X')
    ∧ unlock_state st' = STATE_STARTED
    ∧ last_input_position st' = last_input_position st
    ∧ snd <$> redraw_screen (set_ext (without_indicator (ext st)) st) X = Some X'.
Proof.
  intros Hin Hauth. unfold clear_indicator. rewrite Hin. simpl.
  assert (Hskip : ∀ s, overlay_drawn s = false →
    ∃ s', redraw_screen s X
          = Some (s', xcb_clear_area
                        (xcb_change_back_pixmap
                           (frame_drawn (ext s) (ensure_bg_pixmap s X).2
                              (mkSurface (bg_pixmap (ensure_bg_pixmap s X).1) (visual_of s)
                                         (last_resolution (ext s)).1 (last_resolution (ext s)).2)
                              None (last_resolution (ext s)))
                           (bg_pixmap (ensure_bg_pixmap s X).1))
                        (last_resolution (ext s)).1 (last_resolution (ext s)).2)
          ∧ unlock_state s' = unlock_state s
          ∧ last_input_position s' = last_input_position s).
  { intros s Hs.
    destruct (redraw_screen_result s X) as (s' & o & -> & Ho & _ & _ & Hunlock & _).
    rewrite draw_indicator_skipped in Ho.
    - injection Ho as <- <-. eexists. split; [done|]. split; [done|].
      simpl. unfold ensure_bg_pixmap. by destruct (bool_decide _).
    - rewrite <- Hs. unfold overlay_drawn, ensure_bg_pixmap. by destruct (bool_decide _). }
  destruct (Hskip (set_unlock_state STATE_STARTED st)) as (s1 & -> & Hu1 & Hl1).
  { unfold overlay_drawn. simpl. rewrite Hauth. simpl. apply andb_false_r. }
  destruct (Hskip (set_ext (without_indicator (ext st)) st)) as (s2 & -> & _ & _); [done|].
  do 2 eexists. split; [done|]. split; [done|]. split; [done|].
  simpl. unfold ensure_bg_pixmap. simpl. by destruct (bool_decide _).
Qed.

Lemma coherent_ensure st X :
  coherent st X → coherent (ensure_bg_pixmap st X).1 (ensure_bg_pixmap st X).2.
Proof.
  intros [Honly Hlive]. unfold ensure_bg_pixmap.
  case_bool_decide as Hbg; [|done]. split; simpl.
  - intros i Hi. destruct (decide (i = next_xid X)) as [->|Hne]; [done|].
    rewrite lookup_insert_ne in Hi by done.
    apply Honly in Hi. rewrite Hbg in Hi. discriminate Hi.
  - intros _. by rewrite lookup_insert_eq.
Qed.

Lemma coherent_redraw_screen st X st' X' :
  coherent st X → redraw_screen st X = Some (st', X') → coherent st' X'.
Proof.
  intros Hcoh Hredraw.
  destruct (redraw_screen_result st X) as (s & o & Heq & _ & _ & _ & _ & _ & Hbg & _).
  rewrite Heq in Hredraw. injection Hredraw as <- <-.
  destruct (coherent_ensure st X Hcoh) as [Honly Hlive].
  assert (Hdom : ∀ p, is_Some (find_pixmap
                   (xcb_clear_area
                      (xcb_change_back_pixmap
                         (frame_drawn (ext st) (ensure_bg_pixmap st X).2
                            (mkSurface (bg_pixmap (ensure_bg_pixmap st X).1) (visual_of st)
                               (last_resolution (ext st)).1 (last_resolution (ext st)).2)
                            o (last_resolution (ext st)))
                         (bg_pixmap (ensure_bg_pixmap st X).1))
                      (last_resolution (ext st)).1 (last_resolution (ext st)).2) p)
                 ↔ is_Some (find_pixmap (ensure_bg_pixmap st X).2 p)).
  { intros p. rewrite find_pixmap_published.
    rewrite <- (fmap_is_Some pm_size), pm_size_frame. apply fmap_is_Some. }
  split.
  - intros i Hi. rewrite Hbg. apply Honly. by apply (Hdom (Npos i)).
  - intros Hne. rewrite Hbg in *. apply Hdom. by apply Hlive.
Qed.

Lemma coherent_free_bg_pixmap st X :
  coherent st X → coherent (free_bg_pixmap st X).1 (free_bg_pixmap st X).2.
Proof.
  intros [Honly _]. split; simpl; [|done].
  intros i Hi. exfalso. destruct (bg_pixmap st) as [|j] eqn:Hbg.
  - apply Honly in Hi. congruence.
  - simpl in Hi. destruct (decide (i = j)) as [->|Hne].
    + rewrite lookup_delete_eq in Hi. by destruct Hi.
    + rewrite lookup_delete_ne in Hi by done. apply Honly in Hi. congruence.
Qed.

(** X11: the cache does not leak and does not dangle. From a state in
    which the server holds no pixmap but the cached one, any sequence of
    [redraw_screen], [clear_indicator], [free_bg_pixmap] and assignments
    by the other files runs to its end and leaves the server with no
    pixmap but the one [bg_pixmap] names, and [bg_pixmap] either
    [XCB_NONE] or the handle of a pixmap that exists. *)
Theorem run_keeps_cache_coherent ops st X :
  coherent st X →
  ∃ st' X', run ops st X = Some (st', X') ∧ coherent st' X'.
Proof.
  revert st X. induction ops as [|op ops IH]; intros st X Hcoh; [by do 2 eexists|].
  assert (Hstep : ∃ s Y, run_operation op st X = Some (s, Y) ∧ coherent s Y).
  { destruct op as [e u a| | |]; simpl.
    - do 2 eexists. split; [done|]. exact Hcoh.
    - destruct (redraw_screen_result st X) as (s & o & Heq & _).
      rewrite Heq. do 2 eexists. split; [done|].
      by apply (coherent_redraw_screen st X _ _ Hcoh).
    - unfold clear_indicator.
      set (s0 := if input_position (ext st) =? 0 then _ else _).
      assert (Hcoh0 : coherent s0 X) by (unfold s0; by destruct (_ =? _)).
      destruct (redraw_screen_result s0 X) as (s & o & Heq & _).
      rewrite Heq. do 2 eexists. split; [done|].
      by apply (coherent_redraw_screen s0 X _ _ Hcoh0).
    - do 2 eexists. split; [done|]. by apply (coherent_free_bg_pixmap st X). }
  destruct Hstep as (s & Y & Hs & HcohY). simpl. rewrite Hs. simpl. by apply IH.
Qed.

(** X12: the static variables over a run. Through any sequence of
    operations [vistype], once set, keeps its value, so the visual is
    looked up at most once, and [last_input_position], never negative at
    the start, is never negative. *)
Theorem run_keeps_statics ops st X :
  0 ≤ last_input_position st →
  ∃ st' X',
    run ops st X = Some (st', X')
    ∧ 0 ≤ last_input_position st'
    ∧ ∀ v, vistype st = Some v → vistype st' = Some v.
Proof.
  revert st X. induction ops as [|op ops IH]; intros st X Hlast; [by do 2 eexists|].
  assert (Hredraw : ∀ s, 0 ≤ last_input_position s →
    ∃ s' Y, redraw_screen s X = Some (s', Y)
            ∧ 0 ≤ last_input_position s'
            ∧ ∀ v, vistype s = Some v → vistype s' = Some v).
  { intros s Hs.
    destruct (redraw_screen_result s X) as (s' & o & -> & Ho & _ & _ & _ & _ & _ & Hvis).
    do 2 eexists. split; [done|]. split.
    - destruct (draw_indicator_state junk
                  (set_vistype (Some (visual_of s)) (ensure_bg_pixmap s X).1)) as [o' Ho'].
      rewrite Ho in Ho'. injection Ho' as -> _.
      assert (Hl : last_input_position
                     (set_vistype (Some (visual_of s)) (ensure_bg_pixmap s X).1)
                   = last_input_position s).
      { unfold ensure_bg_pixmap. by destruct (bool_decide _). }
      destruct (overlay_drawn _); [|by rewrite Hl].
      rewrite last_input_position_remember, Hl.
      destruct (Z.ltb_spec 0 (input_position
        (ext (set_vistype (Some (visual_of s)) (ensure_bg_pixmap s X).1)))); lia.
    - intros v Hv. rewrite Hvis. unfold visual_of. by rewrite Hv. }
  assert (Hstep : ∃ s Y, run_operation op st X = Some (s, Y)
                         ∧ 0 ≤ last_input_position s
                         ∧ ∀ v, vistype st = Some v → vistype s = Some v).
  { destruct op as [e u a| | |]; simpl.
    - by do 2 eexists.
    - by apply Hredraw.
    - unfold clear_indicator.
      destruct (Hredraw (if input_position (ext st) =? 0
                         then set_unlock_state STATE_STARTED st
                         else set_unlock_state STATE_KEY_PRESSED st))
        as (s & Y & -> & Hl & Hv); [by destruct (_ =? _)|].
      do 2 eexists. split; [done|]. split; [done|].
      intros v Hvis. apply Hv. by destruct (_ =? _).
    - by do 2 eexists. }
  destruct Hstep as (s & Y & Hs & Hl & Hv). simpl. rewrite Hs. simpl.
  destruct (IH s Y Hl) as (st' & X' & -> & Hl' & Hv').
  do 2 eexists. split; [done|]. split; [done|]. intros v Hvis. by apply Hv', Hv.
Qed.

End Cache.

Lemma clear_indicator_hides_when_empty_witness :
  let st := mkState startup_externs STATE_NOTHING_TO_DELETE STATE_AUTH_IDLE 4 None XCB_NONE in
  ∃ st' X',
    clear_indicator (B := recording_backend) st no_pixmaps = Some (st', X')
    ∧ unlock_state st' = STATE_STARTED
    ∧ last_input_position st' = 4
    ∧ snd <$> redraw_screen (set_ext (without_indicator (ext st)) st) no_pixmaps = Some X'.
Proof.
  intros st.
  apply (clear_indicator_hides_when_empty (B := recording_backend) st no_pixmaps);
    reflexivity.
Defined.

Lemma run_keeps_cache_coherent_witness :
  ∃ st' X',
    run (B := recording_backend)
        [call_redraw_screen; call_redraw_screen; call_free_bg_pixmap;
         collaborators_assign (set_last_resolution (1024, 768) startup_externs)
                              STATE_KEY_PRESSED STATE_AUTH_IDLE;
         call_clear_indicator]
        startup_state no_pixmaps = Some (st', X')
    ∧ coherent st' X'.
Proof.
  apply (run_keeps_cache_coherent (B := recording_backend)).
  split.
  - intros i Hi. simpl in Hi. rewrite lookup_empty in Hi. by destruct Hi.
  - intros Hne. by destruct Hne.
Defined.

Lemma run_keeps_statics_witness :
  ∃ st' X',
    run (B := recording_backend)
        [collaborators_assign (set_input_position 3 startup_externs)
                              STATE_KEY_PRESSED STATE_AUTH_IDLE;
         call_redraw_screen; call_free_bg_pixmap; call_clear_indicator]
        startup_state no_pixmaps = Some (st', X')
    ∧ 0 ≤ last_input_position st'
    ∧ ∀ v, vistype startup_state = Some v → vistype st' = Some v.
Proof.
  apply (run_keeps_statics (B := recording_backend)). simpl. lia.
Defined.

(** The run of the witness above, computed: the second pixmap is the only
    one left, and it has the new size. *)
Example run_leaves_one_pixmap :
  ('(st, X) ← run (B := recording_backend)
                [call_redraw_screen; call_redraw_screen; call_free_bg_pixmap;
                 collaborators_assign (set_last_resolution (1024, 768) startup_externs)
                                      STATE_KEY_PRESSED STATE_AUTH_IDLE;
                 call_clear_indicator]
                startup_state no_pixmaps;
   Some (bg_pixmap st,
         (λ kv : positive * pixmap (B := recording_backend), (kv.1, pm_size kv.2))
           <$> map_to_list (pixmaps X)))
  = Some (2%N, [(2%positive, (1024, 768))]).
Proof. vm_compute. reflexivity. Qed.

(** ** [string_repeat] on a destination that holds something *)

Section BuilderFrame.

Implicit Types (dest str : list byte) (n : Z).

(** X13: for a positive count [string_repeat] needs no initialised
    destination. Whatever the array held, it then holds the copies as its
    string, it has the length it had, and every byte after the terminator
    is the byte that was there. *)
Theorem string_repeat_overwrites dest str n :
  0 < n →
  clamp n * strlen str + 1 ≤ Z.of_nat (length dest) ≤ INT_MAX →
  ∃ dest',
    string_repeat dest str n = Some dest'
    ∧ cstr dest' = copies (clamp n) (cstr str)
    ∧ length dest' = length dest
    ∧ ∀ i, (Z.to_nat (clamp n * strlen str + 1) ≤ i)%nat → dest' !! i = dest !! i.
Proof.
  intros Hn Hfit. pose proof (clamp_range n) as Hrange.
  assert (Hs : 0 ≤ strlen str) by (unfold strlen; lia).
  pose proof (length_copies (clamp n) (cstr str) ltac:(lia)) as Hlen.
  fold (strlen str) in Hlen.
  eexists. split; [by apply string_repeat_positive|].
  split; [apply cstr_copies_nul|]. split.
  - rewrite length_app. simpl. rewrite length_drop. nia.
  - intros i Hi. rewrite lookup_app_r by nia.
    destruct (i - length (copies (clamp n) (cstr str)))%nat as [|j] eqn:Hj; [nia|].
    simpl. rewrite lookup_drop. f_equal. nia.
Qed.

Lemma string_repeat_overwrites_witness :
  ∃ dest',
    string_repeat [x7a; x7a; x7a; x7a; x7a; x7a; x7a; x7a; x7a] dot 2 = Some dest'
    ∧ cstr dest' = dot ++ dot
    ∧ dest' !! 8%nat = Some x7a.
Proof.
  destruct (string_repeat_overwrites [x7a; x7a; x7a; x7a; x7a; x7a; x7a; x7a; x7a] dot 2)
    as (dest' & Hdest & Hstr & _ & Hrest); [lia|by vm_compute|].
  exists dest'. split; [done|]. split; [done|].
  rewrite Hrest; [reflexivity|]. vm_compute. lia.
Defined.

End BuilderFrame.
